(** * The nRF5x TWIM (I2C master) driver of the Pip port of RIOT

    A shallow embedding of [cpu/nrf5x_common_pip/periph/i2c_nrf52_nrf9160.c]:
    the wait-and-classify routine [finish] and the four transfer operations
    [i2c_write_bytes], [i2c_write_regs], [i2c_read_bytes], [i2c_read_regs].

    The driver talks to the peripheral only through the two privileged calls
    [Pip_in] and [Pip_out].  The peripheral is the environment: the values it
    answers to register reads are an arbitrary stream carried by the world, so
    every theorem below holds for every behaviour of the hardware.  All that
    the driver does to the outside (register writes, register reads, mutex
    operations, stores into the static transmit buffer) is recorded, in
    program order, in a trace.

    Integers are [Z]; C's truncating casts are written out. *)

From Stdlib Require Import ZArith List Bool Lia.
Import ListNotations.
Local Open Scope Z_scope.

(** ** Constants of the target

    The vendor header, [periph/i2c.h], [errno.h], the board's memory map and
    Pip's register index table are not part of the driver; they are collected
    in a class, named as the driver names them. *)

(** The registers of a TWIM control block that the driver reaches, under the
    suffix the source gives them after [PIP_NRF_TWIM_TWIM1_].  The busy-wait
    of [finish] names the error event without the [_INDEX] suffix, all other
    places with it; the two names are kept apart. *)
Inductive twim_reg : Type :=
| TASKS_STARTRX_INDEX
| TASKS_STARTTX_INDEX
| EVENTS_STOPPED_INDEX
| EVENTS_ERROR_INDEX
| EVENTS_ERROR
| SHORTS_INDEX
| INTENSET_INDEX
| ERRORSRC_INDEX
| ADDRESS_INDEX
| RXD_PTR_INDEX
| RXD_MAXCNT_INDEX
| TXD_PTR_INDEX
| TXD_MAXCNT_INDEX
| TXD_MAXAMOUNT_INDEX.

Class Target : Type := {
  (* periph_conf.h *)
  I2C_NUMOF : Z;
  i2c_config_dev : Z -> Z;            (* i2c_config[dev].dev *)
  (* memory map *)
  CPU_RAM_BASE : Z;
  CPU_RAM_SIZE : Z;
  tx_buf : Z;                         (* address of the static tx_buf[256] *)
  addr_of_reg : Z;                    (* &reg, the parameter of i2c_read_regs *)
  (* periph/i2c.h *)
  I2C_ADDR10 : Z;
  I2C_REG16 : Z;
  I2C_NOSTOP : Z;
  I2C_NOSTART : Z;
  (* errno.h *)
  EIO : Z;
  ENXIO : Z;
  EOPNOTSUPP : Z;
  (* vendor bit masks *)
  TWIM_INTEN_STOPPED_Msk : Z;
  TWIM_INTEN_ERROR_Msk : Z;
  TWIM_INTEN_LASTTX_Msk : Z;
  TWIM_ERRORSRC_ANACK_Msk : Z;
  TWIM_ERRORSRC_DNACK_Msk : Z;
  TWIM_SHORTS_LASTTX_STARTRX_Msk : Z;
  TWIM_SHORTS_LASTTX_STOP_Msk : Z;
  TWIM_SHORTS_LASTRX_STOP_Msk : Z;
  (* Pip's register indices *)
  PIP_NRF_TWIM_TWIM1 : twim_reg -> Z
}.

(** ** The world the driver runs in *)

Inductive mutex : Type :=
| buffer_lock                (* static mutex_t buffer_lock *)
| busy (dev : Z).            (* static mutex_t busy[I2C_NUMOF] *)

Inductive event : Type :=
| PipOut (reg val : Z)       (* Pip_out(reg, val) *)
| PipIn (reg val : Z)        (* Pip_in(reg), and what it returned *)
| MutexLock (m : mutex)
| MutexUnlock (m : mutex)
| Store (a v : Z)            (* one byte stored into static memory *)
| Memcpy (dst src n : Z).    (* memcpy(dst, src, n) *)

Record world : Type := World {
  mem : Z -> Z;              (* byte-addressed memory *)
  buffer_locked : bool;      (* this thread holds buffer_lock *)
  hw : nat -> Z;             (* what the successive register reads return *)
  cursor : nat;              (* number of register reads done so far *)
  trace : list event
}.

(** A call returns a value, dies in a failed [assert], or is still inside the
    busy-wait of [finish] when the fuel is used up. *)
Inductive outcome (A : Type) : Type :=
| Returned (a : A) (w : world)
| Panicked (w : world)
| Spinning (w : world).
Arguments Returned {A} a w.
Arguments Panicked {A} w.
Arguments Spinning {A} w.

Definition world_of {A} (o : outcome A) : world :=
  match o with
  | Returned _ w => w
  | Panicked w => w
  | Spinning w => w
  end.

Definition retval {A} (o : outcome A) : option A :=
  match o with
  | Returned a _ => Some a
  | _ => None
  end.

Definition M (A : Type) : Type := world -> outcome A.

Definition ret {A} (a : A) : M A := fun w => Returned a w.

Definition bind {A B} (m : M A) (k : A -> M B) : M B :=
  fun w =>
    match m w with
    | Returned a w' => k a w'
    | Panicked w' => Panicked w'
    | Spinning w' => Spinning w'
    end.

Declare Scope drv_scope.
Delimit Scope drv_scope with drv.
Notation "x <- c1 ;; c2" := (bind c1 (fun x => c2))
  (at level 61, c1 at next level, right associativity) : drv_scope.
Notation "c1 ;; c2" := (bind c1 (fun _ => c2))
  (at level 61, right associativity) : drv_scope.
Local Open Scope drv_scope.

Definition emit (e : event) : M unit :=
  fun w => Returned tt
    (World (mem w) (buffer_locked w) (hw w) (cursor w) (trace w ++ [e])).

(** C's truth value of an integer. *)
Definition truthy (x : Z) : bool := negb (x =? 0).

Definition uint8_t (x : Z) : Z := x mod 256.

(** [assert(c)]: RIOT's assert does not return when [c] is false. *)
Definition assert (c : bool) : M unit :=
  fun w => if c then Returned tt w else Panicked w.

Definition Pip_out (reg val : Z) : M unit := emit (PipOut reg val).

Definition Pip_in (reg : Z) : M Z :=
  fun w =>
    let v := hw w (cursor w) in
    Returned v
      (World (mem w) (buffer_locked w) (hw w) (S (cursor w))
             (trace w ++ [PipIn reg v])).

Definition holds_after_lock (m : mutex) (b : bool) : bool :=
  match m with buffer_lock => true | busy _ => b end.

Definition holds_after_unlock (m : mutex) (b : bool) : bool :=
  match m with buffer_lock => false | busy _ => b end.

(** [mutex_lock] returns once the calling thread owns the mutex.  For
    [busy[dev]] that is when the interrupt handler has unlocked it. *)
Definition mutex_lock (m : mutex) : M unit :=
  fun w => Returned tt
    (World (mem w) (holds_after_lock m (buffer_locked w)) (hw w) (cursor w)
           (trace w ++ [MutexLock m])).

Definition mutex_unlock (m : mutex) : M unit :=
  fun w => Returned tt
    (World (mem w) (holds_after_unlock m (buffer_locked w)) (hw w) (cursor w)
           (trace w ++ [MutexUnlock m])).

(** Memory after one byte is written, and after [n] bytes are copied. *)
Definition poke (m : Z -> Z) (a v : Z) : Z -> Z :=
  fun x => if x =? a then v else m x.

Definition copy (m : Z -> Z) (dst src n : Z) : Z -> Z :=
  fun x => if (dst <=? x) && (x <? dst + n) then m (src + (x - dst)) else m x.

(** [*(uint8_t * )a = v] on static memory. *)
Definition store8 (a v : Z) : M unit :=
  fun w => Returned tt
    (World (poke (mem w) a (uint8_t v))
           (buffer_locked w) (hw w) (cursor w) (trace w ++ [Store a (uint8_t v)])).

(** [memcpy(dst, src, n)]: the [n] bytes at [src] as they are before the call
    end up at [dst]. *)
Definition memcpy (dst src n : Z) : M unit :=
  fun w => Returned tt
    (World (copy (mem w) dst src n)
           (buffer_locked w) (hw w) (cursor w) (trace w ++ [Memcpy dst src n])).

(** The [n] bytes found at address [p]: what a DMA transfer of [n] bytes
    programmed at [p] fetches. *)
Definition load (m : Z -> Z) (p : Z) (n : nat) : list Z :=
  map (fun i => m (p + Z.of_nat i)) (seq 0 n).

(** A [uint16_t] local whose address is taken lives in memory, low byte first
    on the little-endian Cortex-M.  It is private to the call and leaves no
    event. *)
Definition poke16 (m : Z -> Z) (a v : Z) : Z -> Z :=
  poke (poke m (a + 1) ((v / 256) mod 256)) a (v mod 256).

Definition store16_local (a v : Z) : M unit :=
  fun w => Returned tt
    (World (poke16 (mem w) a v)
           (buffer_locked w) (hw w) (cursor w) (trace w)).

(** Modelled from the spec: [htons] of [byteorder.h], which is not among the
    sources.  The register selector is big-endian on the wire, the target is
    little-endian, hence the two bytes of a [uint16_t] are exchanged. *)
Definition htons (x : Z) : Z :=
  Z.lor (Z.shiftl (Z.land x 255) 8) (Z.shiftr x 8).

(** ** The driver *)

Section Driver.
Context {T : Target}.

Definition bus (dev : Z) : Z := i2c_config_dev dev.

Definition twim (dev : Z) (r : twim_reg) : Z := bus dev + PIP_NRF_TWIM_TWIM1 r.

(** The [while] of [finish]: read the transmitted amount and the programmed
    count (left operand first), leave when they agree; otherwise read the
    error event and leave when it is set. *)
Fixpoint busy_wait (fuel : nat) (dev : Z) : M unit :=
  match fuel with
  | O => fun w => Spinning w
  | S fuel' =>
      amount <- Pip_in (twim dev TXD_MAXAMOUNT_INDEX) ;;
      maxcnt <- Pip_in (twim dev TXD_MAXCNT_INDEX) ;;
      if negb (amount =? maxcnt) then
        err <- Pip_in (twim dev EVENTS_ERROR) ;;
        if negb (truthy err) then busy_wait fuel' dev else ret tt
      else ret tt
  end.

(** [finish], first half: unmask, block on [busy[dev]], acknowledge a stop
    event, and wait out the last transmitted byte. *)
Definition await (fuel : nat) (dev : Z) (inten_success_flag : Z) : M unit :=
  Pip_out (twim dev INTENSET_INDEX) (Z.lor inten_success_flag TWIM_INTEN_ERROR_Msk) ;;
  mutex_lock (busy dev) ;;
  stopped <- Pip_in (twim dev EVENTS_STOPPED_INDEX) ;;
  (if truthy stopped then Pip_out (twim dev EVENTS_STOPPED_INDEX) 0 else ret tt) ;;
  if truthy (Z.land inten_success_flag TWIM_INTEN_LASTTX_Msk)
  then busy_wait fuel dev
  else ret tt.

(** [finish], second half: look at the error event and its source. *)
Definition classify (dev : Z) : M Z :=
  err <- Pip_in (twim dev EVENTS_ERROR_INDEX) ;;
  if truthy err then
    Pip_out (twim dev EVENTS_ERROR_INDEX) 0 ;;
    src <- Pip_in (twim dev ERRORSRC_INDEX) ;;
    if truthy (Z.land src TWIM_ERRORSRC_ANACK_Msk) then
      Pip_out (twim dev ERRORSRC_INDEX) TWIM_ERRORSRC_ANACK_Msk ;;
      ret (- ENXIO)
    else
      src' <- Pip_in (twim dev ERRORSRC_INDEX) ;;
      if truthy (Z.land src' TWIM_ERRORSRC_DNACK_Msk) then
        Pip_out (twim dev ERRORSRC_INDEX) TWIM_ERRORSRC_DNACK_Msk ;;
        ret (- EIO)
      else ret 0
  else ret 0.

Definition finish (fuel : nat) (dev : Z) (inten_success_flag : Z) : M Z :=
  await fuel dev inten_success_flag ;;
  classify dev.

Definition direct_i2c_write_bytes (fuel : nat) (dev addr data len flags : Z) : M Z :=
  assert ((dev <? I2C_NUMOF) && truthy data && (0 <? len) && (len <? 256)) ;;
  if truthy (Z.land flags (Z.lor I2C_NOSTART I2C_ADDR10)) then ret (- EOPNOTSUPP)
  else
    Pip_out (twim dev ADDRESS_INDEX) addr ;;
    Pip_out (twim dev TXD_PTR_INDEX) data ;;
    Pip_out (twim dev TXD_MAXCNT_INDEX) (uint8_t len) ;;
    inten_success_flag <-
      (if negb (truthy (Z.land flags I2C_NOSTOP)) then
         Pip_out (twim dev SHORTS_INDEX) TWIM_SHORTS_LASTTX_STOP_Msk ;;
         ret TWIM_INTEN_STOPPED_Msk
       else
         Pip_out (twim dev SHORTS_INDEX) 0 ;;
         ret TWIM_INTEN_LASTTX_Msk) ;;
    Pip_out (twim dev TASKS_STARTTX_INDEX) 1 ;;
    finish fuel dev inten_success_flag.

Definition i2c_write_regs (fuel : nat) (dev addr reg data len flags : Z) : M Z :=
  assert ((dev <? I2C_NUMOF) && truthy data && (0 <? len) && (len <? 253)) ;;
  if truthy (Z.land flags (Z.lor I2C_NOSTART I2C_ADDR10)) then ret (- EOPNOTSUPP)
  else
    mutex_lock buffer_lock ;;
    reg_addr_len <-
      (if truthy (Z.land flags I2C_REG16) then
         store8 (tx_buf + 0) (Z.shiftr reg 8) ;;
         store8 (tx_buf + 1) (Z.land reg 255) ;;
         ret 2
       else
         store8 (tx_buf + 0) reg ;;
         ret 1) ;;
    memcpy (tx_buf + reg_addr_len) data len ;;
    r <- direct_i2c_write_bytes fuel dev addr tx_buf (reg_addr_len + len) flags ;;
    mutex_unlock buffer_lock ;;
    ret r.

Definition i2c_read_bytes (fuel : nat) (dev addr data len flags : Z) : M Z :=
  assert ((dev <? I2C_NUMOF) && truthy data && (0 <? len) && (len <? 256)) ;;
  if truthy (Z.land flags (Z.lor (Z.lor I2C_NOSTART I2C_ADDR10) I2C_NOSTOP))
  then ret (- EOPNOTSUPP)
  else
    Pip_out (twim dev ADDRESS_INDEX) addr ;;
    Pip_out (twim dev RXD_PTR_INDEX) data ;;
    Pip_out (twim dev RXD_MAXCNT_INDEX) (uint8_t len) ;;
    Pip_out (twim dev SHORTS_INDEX) TWIM_SHORTS_LASTRX_STOP_Msk ;;
    Pip_out (twim dev TASKS_STARTRX_INDEX) 1 ;;
    finish fuel dev TWIM_INTEN_STOPPED_Msk.

Definition i2c_read_regs (fuel : nat) (dev addr reg data len flags : Z) : M Z :=
  assert ((dev <? I2C_NUMOF) && truthy data && (0 <? len) && (len <? 256)) ;;
  if truthy (Z.land flags (Z.lor (Z.lor I2C_NOSTART I2C_ADDR10) I2C_NOSTOP))
  then ret (- EOPNOTSUPP)
  else
    store16_local addr_of_reg reg ;;
    Pip_out (twim dev ADDRESS_INDEX) addr ;;
    (if truthy (Z.land flags I2C_REG16) then
       store16_local addr_of_reg (htons reg) ;;
       Pip_out (twim dev TXD_MAXCNT_INDEX) 2
     else
       Pip_out (twim dev TXD_MAXCNT_INDEX) 1) ;;
    Pip_out (twim dev TXD_PTR_INDEX) addr_of_reg ;;
    Pip_out (twim dev RXD_PTR_INDEX) data ;;
    Pip_out (twim dev RXD_MAXCNT_INDEX) (uint8_t len) ;;
    Pip_out (twim dev SHORTS_INDEX)
            (Z.lor TWIM_SHORTS_LASTTX_STARTRX_Msk TWIM_SHORTS_LASTRX_STOP_Msk) ;;
    Pip_out (twim dev TASKS_STARTTX_INDEX) 1 ;;
    finish fuel dev TWIM_INTEN_STOPPED_Msk.

Definition in_ram (data : Z) : bool :=
  (CPU_RAM_BASE <=? data) && (data <? CPU_RAM_BASE + CPU_RAM_SIZE).

Definition i2c_write_bytes (fuel : nat) (dev addr data len flags : Z) : M Z :=
  if in_ram data then direct_i2c_write_bytes fuel dev addr data len flags
  else
    assert ((0 <? len) && (len <? 256)) ;;
    mutex_lock buffer_lock ;;
    memcpy tx_buf data len ;;
    result <- direct_i2c_write_bytes fuel dev addr tx_buf len flags ;;
    mutex_unlock buffer_lock ;;
    ret result.

End Driver.

(** ** What a call shows of itself

    [finish] touches neither memory nor [buffer_lock]: what it does is a
    function of the hardware's answers alone.  A run is therefore described
    once, from a world that is blank but for those answers, and pasted
    behind any other world. *)

Definition blank (h : nat -> Z) (c : nat) : world :=
  World (fun _ => 0) false h c [].

Definition paste (w w1 : world) : world :=
  World (mem w) (buffer_locked w) (hw w) (cursor w1) (trace w ++ trace w1).

Definition graft {A} (w : world) (o : outcome A) : outcome A :=
  match o with
  | Returned a w1 => Returned a (paste w w1)
  | Panicked w1 => Panicked (paste w w1)
  | Spinning w1 => Spinning (paste w w1)
  end.

(** The world [n] register reads and the events [evs] later. *)
Definition advance (w : world) (n : nat) (evs : list event) : world :=
  World (mem w) (buffer_locked w) (hw w) (n + cursor w) (trace w ++ evs).

(** A computation that only talks to the peripheral and to [busy[dev]]. *)
Definition io_only {A} (m : M A) : Prop :=
  forall w, m w = graft w (m (blank (hw w) (cursor w))).

(** ... and whose events all satisfy [P]. *)
Definition emits {A} (P : event -> Prop) (m : M A) : Prop :=
  forall h c, Forall P (trace (world_of (m (blank h c)))).

Definition is_out_to (a : Z) (e : event) : bool :=
  match e with
  | PipOut r _ => r =? a
  | _ => false
  end.

(** Number of [Pip_out] calls on register [a] in a trace. *)
Definition count_out (a : Z) (tr : list event) : nat :=
  length (filter (is_out_to a) tr).

Definition is_lock_of (m : mutex) (e : event) : bool :=
  match e, m with
  | MutexLock buffer_lock, buffer_lock => true
  | MutexLock (busy d), busy d' => d =? d'
  | _, _ => false
  end.

Definition count_lock (m : mutex) (tr : list event) : nat :=
  length (filter (is_lock_of m) tr).

Section Views.
Context {T : Target}.

(** Events of [finish] when the hardware answers [h] from position [c] on. *)
Definition finish_trace (fuel : nat) (dev flag : Z) (h : nat -> Z) (c : nat)
  : list event :=
  trace (world_of (finish fuel dev flag (blank h c))).

(** Its return value, if it returns. *)
Definition finish_result (fuel : nat) (dev flag : Z) (h : nat -> Z) (c : nat)
  : option Z :=
  retval (finish fuel dev flag (blank h c)).

(** One turn of the busy-wait is the last one when the two counts agree or
    the error event reads non-zero. *)
Definition round_done (h : nat -> Z) (c : nat) : bool :=
  (h c =? h (S c)) || truthy (h (S (S c))).

Definition round_events (dev : Z) (h : nat -> Z) (c : nat) : list event :=
  PipIn (twim dev TXD_MAXAMOUNT_INDEX) (h c)
  :: PipIn (twim dev TXD_MAXCNT_INDEX) (h (S c))
  :: (if h c =? h (S c) then []
      else [PipIn (twim dev EVENTS_ERROR) (h (S (S c)))]).

(** The turns [0 .. k-1], none of which ends the wait, read three registers
    each. *)
Fixpoint idle_rounds (dev : Z) (h : nat -> Z) (c : nat) (k : nat) : list event :=
  match k with
  | O => []
  | S k' => round_events dev h c ++ idle_rounds dev h (3 + c) k'
  end.

(** The events a call of [finish] may leave after it has unmasked and
    blocked: register reads, and the acknowledging writes. *)
Definition finish_event (dev : Z) (e : event) : Prop :=
  match e with
  | PipIn _ _ => True
  | PipOut r _ =>
      r = twim dev EVENTS_STOPPED_INDEX \/
      r = twim dev EVENTS_ERROR_INDEX \/
      r = twim dev ERRORSRC_INDEX
  | _ => False
  end.

(** The selector as it goes on the wire. *)
Definition selector (flags reg : Z) : list Z :=
  if truthy (Z.land flags I2C_REG16)
  then [Z.shiftr reg 8; Z.land reg 255]
  else [Z.land reg 255].

(** Number of registers read in the turn at [c]. *)
Definition round_reads (h : nat -> Z) (c : nat) : nat :=
  if h c =? h (S c) then 2%nat else 3%nat.

(** The first turn of the busy-wait, among the [fuel] first, that ends it. *)
Fixpoint first_done (fuel : nat) (h : nat -> Z) (c : nat) : option nat :=
  match fuel with
  | O => None
  | S fuel' =>
      if round_done h c then Some O
      else option_map S (first_done fuel' h (3 + c))
  end.

(** Acknowledging a stop event that was read as [s]. *)
Definition stop_ack (dev s : Z) : list event :=
  if truthy s then [PipOut (twim dev EVENTS_STOPPED_INDEX) 0] else [].

(** What every call of [finish] starts with: unmask, block, read the stop
    event. *)
Definition wait_events (dev flag s : Z) : list event :=
  [PipOut (twim dev INTENSET_INDEX) (Z.lor flag TWIM_INTEN_ERROR_Msk);
   MutexLock (busy dev);
   PipIn (twim dev EVENTS_STOPPED_INDEX) s] ++ stop_ack dev s.

(** What the direct write programs before it hands over to [finish]. *)
Definition tx_shorts (flags : Z) : Z :=
  if truthy (Z.land flags I2C_NOSTOP) then 0 else TWIM_SHORTS_LASTTX_STOP_Msk.

Definition tx_flag (flags : Z) : Z :=
  if truthy (Z.land flags I2C_NOSTOP)
  then TWIM_INTEN_LASTTX_Msk else TWIM_INTEN_STOPPED_Msk.

Definition tx_setup (dev addr p n flags : Z) : list event :=
  [PipOut (twim dev ADDRESS_INDEX) addr;
   PipOut (twim dev TXD_PTR_INDEX) p;
   PipOut (twim dev TXD_MAXCNT_INDEX) n;
   PipOut (twim dev SHORTS_INDEX) (tx_shorts flags);
   PipOut (twim dev TASKS_STARTTX_INDEX) 1].

(** The four events of [classify] when the error event reads [e <> 0] and the
    address NACK bit is found in [x]; and so on. *)
Definition anack_events (dev e x : Z) : list event :=
  [PipIn (twim dev EVENTS_ERROR_INDEX) e;
   PipOut (twim dev EVENTS_ERROR_INDEX) 0;
   PipIn (twim dev ERRORSRC_INDEX) x;
   PipOut (twim dev ERRORSRC_INDEX) TWIM_ERRORSRC_ANACK_Msk].

Definition dnack_events (dev e x y : Z) : list event :=
  [PipIn (twim dev EVENTS_ERROR_INDEX) e;
   PipOut (twim dev EVENTS_ERROR_INDEX) 0;
   PipIn (twim dev ERRORSRC_INDEX) x;
   PipIn (twim dev ERRORSRC_INDEX) y;
   PipOut (twim dev ERRORSRC_INDEX) TWIM_ERRORSRC_DNACK_Msk].

Definition other_error_events (dev e x y : Z) : list event :=
  [PipIn (twim dev EVENTS_ERROR_INDEX) e;
   PipOut (twim dev EVENTS_ERROR_INDEX) 0;
   PipIn (twim dev ERRORSRC_INDEX) x;
   PipIn (twim dev ERRORSRC_INDEX) y].

(** Taking [buffer_lock] and filling [tx_buf]: memory becomes [m'], and
    [evs] are the stores. *)
Definition staged (w : world) (m' : Z -> Z) (evs : list event) : world :=
  World m' true (hw w) (cursor w) (trace w ++ MutexLock buffer_lock :: evs).

Definition release (w : world) : world :=
  World (mem w) false (hw w) (cursor w) (trace w ++ [MutexUnlock buffer_lock]).

(** The lock is given back when, and only when, the direct write returns. *)
Definition then_release (o : outcome Z) : outcome Z :=
  match o with
  | Returned r w => Returned r (release w)
  | _ => o
  end.

Definition reg_addr_len (flags : Z) : Z :=
  if truthy (Z.land flags I2C_REG16) then 2 else 1.

Definition selector_stores (flags reg : Z) : list event :=
  if truthy (Z.land flags I2C_REG16)
  then [Store (tx_buf + 0) (uint8_t (Z.shiftr reg 8));
        Store (tx_buf + 1) (uint8_t (Z.land reg 255))]
  else [Store (tx_buf + 0) (uint8_t reg)].

Definition with_selector (m : Z -> Z) (flags reg : Z) : Z -> Z :=
  if truthy (Z.land flags I2C_REG16)
  then poke (poke m (tx_buf + 0) (uint8_t (Z.shiftr reg 8)))
            (tx_buf + 1) (uint8_t (Z.land reg 255))
  else poke m (tx_buf + 0) (uint8_t reg).

(** Memory once [i2c_read_regs] has its selector ready at [&reg]. *)
Definition reg_in_memory (m : Z -> Z) (flags reg : Z) : Z -> Z :=
  if truthy (Z.land flags I2C_REG16)
  then poke16 (poke16 m addr_of_reg reg) addr_of_reg (htons reg)
  else poke16 m addr_of_reg reg.

Definition rx_setup (dev addr data len : Z) : list event :=
  [PipOut (twim dev ADDRESS_INDEX) addr;
   PipOut (twim dev RXD_PTR_INDEX) data;
   PipOut (twim dev RXD_MAXCNT_INDEX) len;
   PipOut (twim dev SHORTS_INDEX) TWIM_SHORTS_LASTRX_STOP_Msk;
   PipOut (twim dev TASKS_STARTRX_INDEX) 1].

Definition rxreg_setup (dev addr data len flags : Z) : list event :=
  [PipOut (twim dev ADDRESS_INDEX) addr;
   PipOut (twim dev TXD_MAXCNT_INDEX) (reg_addr_len flags);
   PipOut (twim dev TXD_PTR_INDEX) addr_of_reg;
   PipOut (twim dev RXD_PTR_INDEX) data;
   PipOut (twim dev RXD_MAXCNT_INDEX) len;
   PipOut (twim dev SHORTS_INDEX)
          (Z.lor TWIM_SHORTS_LASTTX_STARTRX_Msk TWIM_SHORTS_LASTRX_STOP_Msk);
   PipOut (twim dev TASKS_STARTTX_INDEX) 1].

(** The unlock that ends a staged write, when the write returns. *)
Definition unlock_events (r : option Z) : list event :=
  match r with
  | Some _ => [MutexUnlock buffer_lock]
  | None => []
  end.

(** The registers that the source names with the [_INDEX] suffix have
    pairwise different indices. *)
Definition indices_apart : Prop :=
  forall r r' : twim_reg,
    r <> EVENTS_ERROR -> r' <> EVENTS_ERROR ->
    PIP_NRF_TWIM_TWIM1 r = PIP_NRF_TWIM_TWIM1 r' -> r = r'.

End Views.

(** ** The DWM1001 board

    One bus, on TWIM1 of an nRF52832: the vendor's masks and register offsets,
    RIOT's flag values and newlib's error numbers. *)
#[export] Instance dwm1001 : Target := {|
  I2C_NUMOF := 1;
  i2c_config_dev := fun _ => 0x40004000;
  CPU_RAM_BASE := 0x20000000;
  CPU_RAM_SIZE := 0x10000;
  tx_buf := 0x20000400;
  addr_of_reg := 0x2000FF00;
  I2C_ADDR10 := 0x01;
  I2C_REG16 := 0x02;
  I2C_NOSTOP := 0x04;
  I2C_NOSTART := 0x08;
  EIO := 5;
  ENXIO := 6;
  EOPNOTSUPP := 95;
  TWIM_INTEN_STOPPED_Msk := 0x2;
  TWIM_INTEN_ERROR_Msk := 0x200;
  TWIM_INTEN_LASTTX_Msk := 0x1000000;
  TWIM_ERRORSRC_ANACK_Msk := 0x2;
  TWIM_ERRORSRC_DNACK_Msk := 0x4;
  TWIM_SHORTS_LASTTX_STARTRX_Msk := 0x80;
  TWIM_SHORTS_LASTTX_STOP_Msk := 0x200;
  TWIM_SHORTS_LASTRX_STOP_Msk := 0x1000;
  PIP_NRF_TWIM_TWIM1 := fun r =>
    match r with
    | TASKS_STARTRX_INDEX => 0x000
    | TASKS_STARTTX_INDEX => 0x008
    | EVENTS_STOPPED_INDEX => 0x104
    | EVENTS_ERROR_INDEX => 0x124
    | EVENTS_ERROR => 0x124
    | SHORTS_INDEX => 0x200
    | INTENSET_INDEX => 0x304
    | ERRORSRC_INDEX => 0x4C4
    | ADDRESS_INDEX => 0x588
    | RXD_PTR_INDEX => 0x534
    | RXD_MAXCNT_INDEX => 0x538
    | TXD_PTR_INDEX => 0x544
    | TXD_MAXCNT_INDEX => 0x548
    | TXD_MAXAMOUNT_INDEX => 0x54C
    end
|}.

(** ** Concrete runs on the board *)

(** A peripheral that answers the successive register reads with the
    elements of [l], and with [0] ever after. *)
Definition answers (l : list Z) : nat -> Z := fun n => nth n l 0.

(** Memory that holds [bytes] from address [p] on, and zeros elsewhere. *)
Definition holding (p : Z) (bytes : list Z) : Z -> Z :=
  fun a =>
    if (p <=? a) && (a <? p + Z.of_nat (length bytes))
    then nth (Z.to_nat (a - p)) bytes 0 else 0.

(** The world at the start of a call: nothing locked, nothing traced. *)
Definition at_call (m : Z -> Z) (h : nat -> Z) : world := World m false h 0 [].

(** Answers of the peripheral: a stop event, then an error event whose
    source is an address NACK, a data NACK, an overrun. *)
Definition w_anack : world := at_call (fun _ => 0) (answers [1; 1; 2]).
Definition w_dnack : world := at_call (fun _ => 0) (answers [1; 1; 4; 4]).
Definition w_overrun : world := at_call (fun _ => 0) (answers [1; 1; 1; 1]).

(** Two bytes in RAM, two bytes in flash; a peripheral that has sent all
    three bytes of a write without stop; one that raises the stop event. *)
Definition w_nostop : world :=
  at_call (holding 0x20001000 [0xAA; 0xBB]) (answers [0; 3; 3; 0]).
Definition w_flash : world :=
  at_call (holding 0x1000 [0xC1; 0xC2]) (answers [1; 0]).
Definition w_stop : world :=
  at_call (holding 0x20001000 [0xAA; 0xBB]) (answers [1; 0]).

(** A peripheral that has sent both bytes of a write without stop; the
    flash bytes of [w_flash], in RAM. *)
Definition w_sent2 : world :=
  at_call (holding 0x20001000 [0xAA; 0xBB]) (answers [0; 2; 2; 0]).
Definition w_ram : world :=
  at_call (holding 0x20001000 [0xC1; 0xC2]) (answers [1; 0]).

(** Two bytes in flash, on a peripheral that has sent both bytes of a write
    without stop. *)
Definition w_flash_sent2 : world :=
  at_call (holding 0x1000 [0xC1; 0xC2]) (answers [0; 2; 2; 0]).

(** The selector [0x10] and the two bytes of [w_stop], once in flash as one
    block and once as a payload in RAM. *)
Definition w_image : world :=
  at_call (fun a => holding 0x1000 [0x10; 0xAA; 0xBB] a
                    + holding 0x20001000 [0xAA; 0xBB] a)
          (answers [1; 0]).

(** ** The interrupt handler *)

(** The one register that only [i2c_isr_handler] reaches. *)
Class IrqTarget : Type := {
  PIP_NRF_TWIM_TWIM1_INTENCLR_INDEX : Z
}.

Section Irq.
Context {T : Target} {I : IrqTarget}.

(** [arg] carries the bus number. *)
Definition i2c_isr_handler (dev : Z) : M unit :=
  Pip_out (bus dev + PIP_NRF_TWIM_TWIM1_INTENCLR_INDEX)
          (Z.lor (Z.lor TWIM_INTEN_STOPPED_Msk TWIM_INTEN_ERROR_Msk)
                 TWIM_INTEN_LASTTX_Msk) ;;
  mutex_unlock (busy dev).

End Irq.

#[export] Instance dwm1001_irq : IrqTarget := {|
  PIP_NRF_TWIM_TWIM1_INTENCLR_INDEX := 0x308
|}.

(** ** What the driver may do at all *)

(** A relation between the world before and the world after, kept by every
    step of a computation. *)
Definition stays (R : world -> world -> Prop) {A} (m : M A) : Prop :=
  forall w, R w (world_of (m w)).

(** The events added all satisfy [P]; memory outside [A] is as before; the
    peripheral's answers are only consumed. *)
Definition confined (P : event -> Prop) (A : Z -> Prop) (w w' : world) : Prop :=
  (exists evs, trace w' = trace w ++ evs /\ Forall P evs) /\
  (forall a, ~ A a -> mem w' a = mem w a) /\
  hw w' = hw w /\
  (cursor w <= cursor w')%nat.

(** Whatever a computation returns satisfies [Q]. *)
Definition yields {A} (Q : A -> Prop) (m : M A) : Prop :=
  forall w a w', m w = Returned a w' -> Q a.

(** No assertion fails. *)
Definition safe {A} (m : M A) : Prop :=
  forall w w', m w <> Panicked w'.

(** A lock that is taken, and given back when and only when the call
    returns. *)
Definition held_until_return {A} (o : outcome A) : bool :=
  match retval o with
  | Some _ => false
  | None => true
  end.

(** An assertion fails in the run from [w]. *)
Definition panics {A} (m : M A) (w : world) : Prop :=
  exists w', m w = Panicked w'.

Section Footprint.
Context {T : Target}.

Definition in_tx_buf (a : Z) : Prop := tx_buf <= a < tx_buf + 256.

(** The register writes of the driver: which register of bus [dev], and
    which values. *)
Definition written (dev r v : Z) : Prop :=
  r = twim dev ADDRESS_INDEX \/
  r = twim dev TXD_PTR_INDEX \/
  r = twim dev RXD_PTR_INDEX \/
  ((r = twim dev TXD_MAXCNT_INDEX \/ r = twim dev RXD_MAXCNT_INDEX) /\
   0 < v < 256) \/
  (r = twim dev SHORTS_INDEX /\
   (v = 0 \/ v = TWIM_SHORTS_LASTTX_STOP_Msk \/ v = TWIM_SHORTS_LASTRX_STOP_Msk \/
    v = Z.lor TWIM_SHORTS_LASTTX_STARTRX_Msk TWIM_SHORTS_LASTRX_STOP_Msk)) \/
  ((r = twim dev TASKS_STARTTX_INDEX \/ r = twim dev TASKS_STARTRX_INDEX) /\
   v = 1) \/
  (r = twim dev INTENSET_INDEX /\
   (v = Z.lor TWIM_INTEN_STOPPED_Msk TWIM_INTEN_ERROR_Msk \/
    v = Z.lor TWIM_INTEN_LASTTX_Msk TWIM_INTEN_ERROR_Msk)) \/
  ((r = twim dev EVENTS_STOPPED_INDEX \/ r = twim dev EVENTS_ERROR_INDEX) /\
   v = 0) \/
  (r = twim dev ERRORSRC_INDEX /\
   (v = TWIM_ERRORSRC_ANACK_Msk \/ v = TWIM_ERRORSRC_DNACK_Msk)).

Definition read_from (dev r : Z) : Prop :=
  r = twim dev EVENTS_STOPPED_INDEX \/
  r = twim dev TXD_MAXAMOUNT_INDEX \/
  r = twim dev TXD_MAXCNT_INDEX \/
  r = twim dev EVENTS_ERROR \/
  r = twim dev EVENTS_ERROR_INDEX \/
  r = twim dev ERRORSRC_INDEX.

(** The events of an operation on bus [dev]; [staging] tells whether it may
    use [tx_buf] and its lock. *)
Definition driver_event (staging : bool) (dev : Z) (e : event) : Prop :=
  match e with
  | PipOut r v => written dev r v
  | PipIn r _ => read_from dev r
  | MutexLock m => m = busy dev \/ (staging = true /\ m = buffer_lock)
  | MutexUnlock m => staging = true /\ m = buffer_lock
  | Store a v => staging = true /\ tx_buf <= a < tx_buf + 2 /\ 0 <= v < 256
  | Memcpy dst _ n =>
      staging = true /\ 0 < n /\ tx_buf <= dst /\ dst + n <= tx_buf + 256
  end.

(** The flags that [finish] is called with. *)
Definition is_success_flag (f : Z) : Prop :=
  f = TWIM_INTEN_STOPPED_Msk \/ f = TWIM_INTEN_LASTTX_Msk.

(** What a plain read does up to the classification, when the stop event
    reads [s]. *)
Definition rx_events (dev addr data len s : Z) : list event :=
  rx_setup dev addr data len
  ++ wait_events dev TWIM_INTEN_STOPPED_Msk s.

(** Two flag words agree on the bits of [bit]. *)
Definition same_flag (bit flags flags' : Z) : Prop :=
  truthy (Z.land flags bit) = truthy (Z.land flags' bit).

(** The values a transfer operation can return. *)
Definition status_code (r : Z) : Prop :=
  r = 0 \/ r = - EOPNOTSUPP \/ r = - ENXIO \/ r = - EIO.

End Footprint.

(** * Properties *)

(** ** Flags *)

Lemma truthy_true (x : Z) : truthy x = true <-> x <> 0.
Proof.
  unfold truthy. rewrite negb_true_iff, Z.eqb_neq. tauto.
Qed.

Lemma truthy_false (x : Z) : truthy x = false <-> x = 0.
Proof.
  unfold truthy. rewrite negb_false_iff, Z.eqb_eq. tauto.
Qed.

Lemma truthy_land_lor (f a b : Z) :
  truthy (Z.land f (Z.lor a b)) = truthy (Z.land f a) || truthy (Z.land f b).
Proof.
  rewrite Z.land_lor_distr_r.
  destruct (truthy (Z.land f a)) eqn:Ea, (truthy (Z.land f b)) eqn:Eb; simpl;
    rewrite ?truthy_true, ?truthy_false in *; rewrite Z.lor_eq_0_iff; tauto.
Qed.

(** ** Pasting runs *)

Lemma paste_blank (w : world) : paste w (blank (hw w) (cursor w)) = w.
Proof.
  destruct w; unfold paste, blank; simpl. now rewrite app_nil_r.
Qed.

Lemma paste_assoc (w w1 w2 : world) :
  paste (paste w w1) w2 = paste w (paste w1 w2).
Proof.
  unfold paste; simpl. now rewrite app_assoc.
Qed.

Lemma graft_graft {A} (w w1 : world) (o : outcome A) :
  graft (paste w w1) o = graft w (graft w1 o).
Proof.
  destruct o; simpl; now rewrite paste_assoc.
Qed.

Lemma world_of_graft {A} (w : world) (o : outcome A) :
  world_of (graft w o) = paste w (world_of o).
Proof. now destruct o. Qed.

Lemma retval_graft {A} (w : world) (o : outcome A) :
  retval (graft w o) = retval o.
Proof. now destruct o. Qed.

Lemma io_only_hw {A} (m : M A) (w : world) :
  io_only m -> hw (world_of (m w)) = hw w.
Proof.
  intros H. rewrite H, world_of_graft. reflexivity.
Qed.

Lemma io_only_ret {A} (a : A) : io_only (ret a).
Proof.
  intros w. unfold ret; simpl. now rewrite paste_blank.
Qed.

Lemma io_only_Pip_out (r v : Z) : io_only (Pip_out r v).
Proof.
  intros [m b h c tr]. reflexivity.
Qed.

Lemma io_only_Pip_in (r : Z) : io_only (Pip_in r).
Proof.
  intros [m b h c tr]. reflexivity.
Qed.

Lemma io_only_lock_busy (dev : Z) : io_only (mutex_lock (busy dev)).
Proof.
  intros [m b h c tr]. reflexivity.
Qed.

Lemma io_only_bind {A B} (m : M A) (k : A -> M B) :
  io_only m -> (forall a, io_only (k a)) -> io_only (bind m k).
Proof.
  intros Hm Hk w. unfold bind.
  set (b := blank (hw w) (cursor w)).
  assert (Hb : hw (world_of (m b)) = hw w) by (now rewrite io_only_hw).
  rewrite (Hm w). fold b.
  destruct (m b) as [a w1 | w1 | w1]; simpl in *; try reflexivity.
  rewrite (Hk a (paste w w1)), (Hk a w1). simpl.
  rewrite Hb. apply graft_graft.
Qed.

Lemma io_only_if {A} (c : bool) (m1 m2 : M A) :
  io_only m1 -> io_only m2 -> io_only (if c then m1 else m2).
Proof. now destruct c. Qed.

Lemma emits_ret {A} (P : event -> Prop) (a : A) : emits P (ret a).
Proof. intros h c. constructor. Qed.

Lemma emits_Pip_in (P : event -> Prop) (r : Z) :
  (forall v, P (PipIn r v)) -> emits P (Pip_in r).
Proof. intros H h c. simpl. repeat constructor. apply H. Qed.

Lemma emits_Pip_out (P : event -> Prop) (r v : Z) :
  P (PipOut r v) -> emits P (Pip_out r v).
Proof. intros H h c. simpl. repeat constructor. exact H. Qed.

Lemma emits_bind {A B} (P : event -> Prop) (m : M A) (k : A -> M B) :
  emits P m -> (forall a, io_only (k a)) -> (forall a, emits P (k a)) ->
  emits P (bind m k).
Proof.
  intros Hm Hio Hk h c. unfold bind.
  specialize (Hm h c).
  destruct (m (blank h c)) as [a w1 | w1 | w1]; simpl in *; try exact Hm.
  rewrite (Hio a w1), world_of_graft. simpl.
  apply Forall_app. split; [exact Hm | apply Hk].
Qed.

Lemma emits_if {A} (P : event -> Prop) (c : bool) (m1 m2 : M A) :
  emits P m1 -> emits P m2 -> emits P (if c then m1 else m2).
Proof. now destruct c. Qed.

Create HintDb io.
#[local] Hint Resolve io_only_ret io_only_Pip_out io_only_Pip_in
  io_only_lock_busy io_only_bind io_only_if : io.
#[local] Hint Resolve emits_ret emits_bind emits_if : io.

Section FinishFacts.
Context {T : Target}.

Lemma io_only_busy_wait (fuel : nat) (dev : Z) : io_only (busy_wait fuel dev).
Proof.
  induction fuel as [| fuel IH]; simpl.
  - intros w. simpl. now rewrite paste_blank.
  - auto 10 with io.
Qed.

Lemma io_only_await (fuel : nat) (dev flag : Z) : io_only (await fuel dev flag).
Proof.
  unfold await. pose proof (io_only_busy_wait fuel dev). auto 10 with io.
Qed.

Lemma io_only_classify (dev : Z) : io_only (classify dev).
Proof.
  unfold classify. auto 20 with io.
Qed.

Lemma io_only_finish (fuel : nat) (dev flag : Z) : io_only (finish fuel dev flag).
Proof.
  unfold finish. pose proof (io_only_await fuel dev flag).
  pose proof (io_only_classify dev). auto with io.
Qed.

(** [finish] leaves memory and [buffer_lock] alone, and what it returns and
    emits depends on the hardware's answers only. *)
Lemma finish_frame (fuel : nat) (dev flag : Z) (w : world) :
  let o := finish fuel dev flag w in
  mem (world_of o) = mem w /\
  buffer_locked (world_of o) = buffer_locked w /\
  hw (world_of o) = hw w /\
  trace (world_of o) = trace w ++ finish_trace fuel dev flag (hw w) (cursor w) /\
  retval o = finish_result fuel dev flag (hw w) (cursor w).
Proof.
  simpl. rewrite (io_only_finish fuel dev flag w).
  rewrite world_of_graft, retval_graft. repeat split; reflexivity.
Qed.

Lemma finish_stop (fuel : nat) (dev flag : Z) (w : world) :
  Z.land flag TWIM_INTEN_LASTTX_Msk = 0 ->
  finish fuel dev flag w =
  classify dev (advance w 1 (wait_events dev flag (hw w (cursor w)))).
Proof.
  intros H. apply truthy_false in H.
  unfold finish, await, wait_events, stop_ack, advance, bind; simpl.
  rewrite H.
  destruct (truthy (hw w (cursor w))); simpl;
    repeat rewrite <- app_assoc; reflexivity.
Qed.

Lemma finish_lasttx (fuel : nat) (dev flag : Z) (w : world) :
  Z.land flag TWIM_INTEN_LASTTX_Msk <> 0 ->
  finish fuel dev flag w =
  (busy_wait fuel dev ;; classify dev)
    (advance w 1 (wait_events dev flag (hw w (cursor w)))).
Proof.
  intros H. apply truthy_true in H.
  unfold finish, await, wait_events, stop_ack, advance, bind; simpl.
  rewrite H.
  destruct (truthy (hw w (cursor w))); simpl;
    repeat rewrite <- app_assoc; reflexivity.
Qed.

Lemma advance_advance (w : world) (n1 n2 : nat) (e1 e2 : list event) :
  advance (advance w n1 e1) n2 e2 = advance w (n2 + n1) (e1 ++ e2).
Proof.
  unfold advance; simpl. f_equal; [lia | now rewrite app_assoc].
Qed.

Lemma advance_0 (w : world) : advance w 0 [] = w.
Proof.
  destruct w; unfold advance; simpl. now rewrite app_nil_r.
Qed.

Lemma busy_wait_step (fuel : nat) (dev : Z) (w : world) :
  busy_wait (S fuel) dev w =
  if round_done (hw w) (cursor w)
  then Returned tt (advance w (round_reads (hw w) (cursor w))
                            (round_events dev (hw w) (cursor w)))
  else busy_wait fuel dev
         (advance w 3 (round_events dev (hw w) (cursor w))).
Proof.
  unfold round_done, round_reads, round_events, advance, bind; simpl.
  unfold bind; simpl.
  destruct (hw w (cursor w) =? hw w (S (cursor w))); simpl.
  - rewrite <- app_assoc. reflexivity.
  - destruct (truthy (hw w (S (S (cursor w))))); simpl;
      repeat rewrite <- app_assoc; reflexivity.
Qed.

Lemma busy_wait_done (fuel : nat) (dev : Z) : forall (w : world) (k : nat),
  first_done fuel (hw w) (cursor w) = Some k ->
  busy_wait fuel dev w =
  Returned tt
    (advance w (round_reads (hw w) (3 * k + cursor w) + 3 * k)
       (idle_rounds dev (hw w) (cursor w) k
        ++ round_events dev (hw w) (3 * k + cursor w))).
Proof.
  induction fuel as [| fuel IH]; intros w k H; [discriminate |].
  rewrite busy_wait_step. cbn [first_done] in H.
  destruct (round_done (hw w) (cursor w)) eqn:E.
  - injection H as <-. simpl. rewrite Nat.add_0_r. reflexivity.
  - destruct (first_done fuel (hw w) (3 + cursor w)) as [k' |] eqn:E'; [| discriminate].
    injection H as <-.
    rewrite (IH (advance w 3 (round_events dev (hw w) (cursor w))) k' E').
    rewrite advance_advance. cbn [idle_rounds hw cursor advance].
    replace (3 * k' + (3 + cursor w))%nat with (3 * S k' + cursor w)%nat by lia.
    f_equal. unfold advance. f_equal; [lia | now rewrite <- app_assoc].
Qed.

Lemma busy_wait_spin (fuel : nat) (dev : Z) : forall (w : world),
  first_done fuel (hw w) (cursor w) = None ->
  busy_wait fuel dev w =
  Spinning (advance w (3 * fuel) (idle_rounds dev (hw w) (cursor w) fuel)).
Proof.
  induction fuel as [| fuel IH]; intros w H.
  - simpl. now rewrite advance_0.
  - rewrite busy_wait_step. cbn [first_done] in H.
    destruct (round_done (hw w) (cursor w)) eqn:E; [discriminate |].
    destruct (first_done fuel (hw w) (3 + cursor w)) as [k' |] eqn:E'; [discriminate |].
    rewrite (IH (advance w 3 (round_events dev (hw w) (cursor w))) E').
    rewrite advance_advance. cbn [idle_rounds hw cursor advance].
    f_equal. unfold advance. f_equal. lia.
Qed.

(** [first_done] finds the least turn that ends the wait. *)
Lemma first_done_spec (fuel : nat) (h : nat -> Z) : forall (c k : nat),
  first_done fuel h c = Some k <->
  (k < fuel)%nat /\ round_done h (3 * k + c) = true /\
  (forall j, (j < k)%nat -> round_done h (3 * j + c) = false).
Proof.
  induction fuel as [| fuel IH]; intros c k; cbn [first_done].
  - split; [discriminate | intros [H _]; lia].
  - destruct (round_done h c) eqn:E.
    + split.
      * intros [= <-]. repeat split; [lia | exact E | intros j Hj; lia].
      * intros (_ & _ & Hmin). destruct k as [| k]; [reflexivity |].
        specialize (Hmin O ltac:(lia)). simpl in Hmin. congruence.
    + destruct k as [| k].
      * split.
        -- destruct (first_done fuel h (3 + c)); discriminate.
        -- intros (_ & Hd & _). simpl in Hd. congruence.
      * specialize (IH (3 + c)%nat k).
        replace (3 * S k + c)%nat with (3 * k + (3 + c))%nat by lia.
        split.
        -- destruct (first_done fuel h (3 + c)) as [k' |] eqn:E'; [| discriminate].
           intros [= ->]. destruct IH as [IH _]. destruct (IH eq_refl) as (H1 & H2 & H3).
           repeat split; [lia | exact H2 |].
           intros [| j] Hj; [exact E |].
           replace (3 * S j + c)%nat with (3 * j + (3 + c))%nat by lia.
           apply H3. lia.
        -- intros (H1 & H2 & H3). destruct IH as [_ IH].
           rewrite IH; [reflexivity |].
           repeat split; [lia | exact H2 |].
           intros j Hj. specialize (H3 (S j) ltac:(lia)).
           replace (3 * S j + c)%nat with (3 * j + (3 + c))%nat in H3 by lia.
           exact H3.
Qed.

(** *** The four ways through [classify] *)

Lemma classify_quiet (dev : Z) (w : world) :
  hw w (cursor w) = 0 ->
  classify dev w =
  Returned 0 (advance w 1 [PipIn (twim dev EVENTS_ERROR_INDEX) 0]).
Proof.
  intros H. unfold classify, bind, Pip_in, advance; simpl.
  rewrite H. reflexivity.
Qed.

Lemma classify_anack (dev : Z) (w : world) :
  let e := hw w (cursor w) in
  let x := hw w (S (cursor w)) in
  e <> 0 -> Z.land x TWIM_ERRORSRC_ANACK_Msk <> 0 ->
  classify dev w = Returned (- ENXIO) (advance w 2 (anack_events dev e x)).
Proof.
  intros e x He Hx. apply truthy_true in He, Hx.
  unfold classify, bind, Pip_in, Pip_out, emit, advance, anack_events; simpl.
  fold e. rewrite He. simpl. fold x. rewrite Hx. simpl.
  repeat rewrite <- app_assoc. reflexivity.
Qed.

Lemma classify_dnack (dev : Z) (w : world) :
  let e := hw w (cursor w) in
  let x := hw w (S (cursor w)) in
  let y := hw w (S (S (cursor w))) in
  e <> 0 -> Z.land x TWIM_ERRORSRC_ANACK_Msk = 0 ->
  Z.land y TWIM_ERRORSRC_DNACK_Msk <> 0 ->
  classify dev w = Returned (- EIO) (advance w 3 (dnack_events dev e x y)).
Proof.
  intros e x y He Hx Hy. apply truthy_true in He, Hy. apply truthy_false in Hx.
  unfold classify, bind, Pip_in, Pip_out, emit, advance, dnack_events; simpl.
  fold e. rewrite He. simpl. fold x. rewrite Hx. simpl. fold y. rewrite Hy. simpl.
  repeat rewrite <- app_assoc. reflexivity.
Qed.

Lemma classify_other (dev : Z) (w : world) :
  let e := hw w (cursor w) in
  let x := hw w (S (cursor w)) in
  let y := hw w (S (S (cursor w))) in
  e <> 0 -> Z.land x TWIM_ERRORSRC_ANACK_Msk = 0 ->
  Z.land y TWIM_ERRORSRC_DNACK_Msk = 0 ->
  classify dev w = Returned 0 (advance w 3 (other_error_events dev e x y)).
Proof.
  intros e x y He Hx Hy. apply truthy_true in He. apply truthy_false in Hx, Hy.
  unfold classify, bind, Pip_in, Pip_out, emit, advance, other_error_events; simpl.
  fold e. rewrite He. simpl. fold x. rewrite Hx. simpl. fold y. rewrite Hy. simpl.
  repeat rewrite <- app_assoc. reflexivity.
Qed.

(** [classify] always returns. *)
Lemma classify_returns (dev : Z) (w : world) :
  exists r w', classify dev w = Returned r w'.
Proof.
  unfold classify, bind, Pip_in, Pip_out, emit; simpl.
  destruct (truthy (hw w (cursor w))); simpl; [| eauto].
  destruct (truthy (Z.land (hw w (S (cursor w))) TWIM_ERRORSRC_ANACK_Msk));
    simpl; [eauto |].
  destruct (truthy (Z.land (hw w (S (S (cursor w)))) TWIM_ERRORSRC_DNACK_Msk));
    simpl; eauto.
Qed.

(** *** What [finish] leaves in the trace *)

Lemma emits_busy_wait (fuel : nat) (dev : Z) :
  emits (finish_event dev) (busy_wait fuel dev).
Proof.
  induction fuel as [| fuel IH]; simpl.
  - intros h c. constructor.
  - pose proof (io_only_busy_wait fuel dev).
    repeat (apply emits_bind || apply emits_if || apply emits_ret
            || apply emits_Pip_in || intros); auto 10 with io; exact I.
Qed.

Lemma emits_classify (dev : Z) : emits (finish_event dev) (classify dev).
Proof.
  unfold classify.
  repeat (apply emits_bind || apply emits_if || apply emits_ret
          || apply emits_Pip_in || apply emits_Pip_out || intros);
    auto 20 with io; simpl; auto.
Qed.

Lemma finish_trace_shape (fuel : nat) (dev flag : Z) (h : nat -> Z) (c : nat) :
  exists tl,
    finish_trace fuel dev flag h c = wait_events dev flag (h c) ++ tl /\
    Forall (finish_event dev) tl.
Proof.
  unfold finish_trace.
  destruct (Z.eq_dec (Z.land flag TWIM_INTEN_LASTTX_Msk) 0) as [H | H].
  - rewrite (finish_stop fuel dev flag _ H).
    rewrite (io_only_classify dev), world_of_graft. simpl.
    eexists. split; [reflexivity | apply emits_classify].
  - rewrite (finish_lasttx fuel dev flag _ H).
    assert (Hio : io_only (busy_wait fuel dev ;; classify dev)).
    { pose proof (io_only_busy_wait fuel dev). pose proof (io_only_classify dev).
      auto with io. }
    rewrite Hio, world_of_graft. simpl.
    eexists. split; [reflexivity |].
    apply emits_bind; intros;
      [apply emits_busy_wait | apply io_only_classify | apply emits_classify].
Qed.

End FinishFacts.

(** ** Counting events *)

Lemma count_out_app (a : Z) (l1 l2 : list event) :
  count_out a (l1 ++ l2) = (count_out a l1 + count_out a l2)%nat.
Proof.
  unfold count_out. now rewrite filter_app, length_app.
Qed.

Lemma count_lock_app (m : mutex) (l1 l2 : list event) :
  count_lock m (l1 ++ l2) = (count_lock m l1 + count_lock m l2)%nat.
Proof.
  unfold count_lock. now rewrite filter_app, length_app.
Qed.

Section Calls.
Context {T : Target}.

Lemma finish_events_no_lock (dev : Z) (m : mutex) (tl : list event) :
  Forall (finish_event dev) tl -> count_lock m tl = 0%nat.
Proof.
  induction 1 as [| e tl He _ IH]; [reflexivity |].
  unfold count_lock in *. simpl.
  destruct e; simpl in *; try contradiction; exact IH.
Qed.

Lemma finish_events_no_out (dev a : Z) (tl : list event) :
  a <> twim dev EVENTS_STOPPED_INDEX ->
  a <> twim dev EVENTS_ERROR_INDEX ->
  a <> twim dev ERRORSRC_INDEX ->
  Forall (finish_event dev) tl -> count_out a tl = 0%nat.
Proof.
  intros H1 H2 H3. induction 1 as [| e tl He _ IH]; [reflexivity |].
  unfold count_out in *. simpl.
  destruct e; simpl in *; try contradiction; try exact IH.
  destruct (Z.eqb_spec reg a); [| exact IH].
  subst. destruct He as [-> | [-> | ->]]; contradiction.
Qed.

(** *** The guards *)

Lemma guard_passes (dev data len lim : Z) :
  dev < I2C_NUMOF -> data <> 0 -> 0 < len < lim ->
  (dev <? I2C_NUMOF) && truthy data && (0 <? len) && (len <? lim) = true.
Proof.
  intros Hd Hp [Hl Hu].
  apply Z.ltb_lt in Hd, Hl, Hu. apply truthy_true in Hp.
  now rewrite Hd, Hp, Hl, Hu.
Qed.

Lemma guard_fails (dev data len lim : Z) :
  I2C_NUMOF <= dev \/ data = 0 \/ len <= 0 \/ lim <= len ->
  (dev <? I2C_NUMOF) && truthy data && (0 <? len) && (len <? lim) = false.
Proof.
  intros H. rewrite !andb_false_iff, !Z.ltb_ge, truthy_false. tauto.
Qed.

Lemma flags_clear (flags a b : Z) :
  Z.land flags a = 0 -> Z.land flags b = 0 ->
  truthy (Z.land flags (Z.lor a b)) = false.
Proof.
  intros Ha Hb. rewrite truthy_land_lor.
  apply truthy_false in Ha, Hb. now rewrite Ha, Hb.
Qed.

Lemma flags_set (flags a b : Z) :
  Z.land flags a <> 0 \/ Z.land flags b <> 0 ->
  truthy (Z.land flags (Z.lor a b)) = true.
Proof.
  intros H. rewrite truthy_land_lor, orb_true_iff, !truthy_true. exact H.
Qed.

(** *** The direct write *)

Lemma direct_accepted (fuel : nat) (dev addr data len flags : Z) (w : world) :
  dev < I2C_NUMOF -> data <> 0 -> 0 < len < 256 ->
  Z.land flags I2C_NOSTART = 0 -> Z.land flags I2C_ADDR10 = 0 ->
  direct_i2c_write_bytes fuel dev addr data len flags w =
  finish fuel dev (tx_flag flags)
         (advance w 0 (tx_setup dev addr data len flags)).
Proof.
  intros Hd Hp Hl Hs Ha.
  unfold direct_i2c_write_bytes, assert, bind.
  rewrite (guard_passes dev data len 256 Hd Hp Hl), (flags_clear _ _ _ Hs Ha).
  unfold tx_setup, advance, uint8_t. unfold tx_flag, tx_shorts.
  rewrite Z.mod_small by lia.
  destruct (truthy (Z.land flags I2C_NOSTOP)); simpl;
    repeat rewrite <- app_assoc; reflexivity.
Qed.

Lemma direct_rejected (fuel : nat) (dev addr data len flags : Z) (w : world) :
  dev < I2C_NUMOF -> data <> 0 -> 0 < len < 256 ->
  Z.land flags I2C_NOSTART <> 0 \/ Z.land flags I2C_ADDR10 <> 0 ->
  direct_i2c_write_bytes fuel dev addr data len flags w =
  Returned (- EOPNOTSUPP) w.
Proof.
  intros Hd Hp Hl Hf.
  unfold direct_i2c_write_bytes, assert, bind.
  rewrite (guard_passes dev data len 256 Hd Hp Hl), (flags_set _ _ _ Hf).
  reflexivity.
Qed.

Lemma direct_panics (fuel : nat) (dev addr data len flags : Z) (w : world) :
  I2C_NUMOF <= dev \/ data = 0 \/ len <= 0 \/ 256 <= len ->
  direct_i2c_write_bytes fuel dev addr data len flags w = Panicked w.
Proof.
  intros H. unfold direct_i2c_write_bytes, assert, bind.
  now rewrite (guard_fails dev data len 256 H).
Qed.

(** A direct write that passes its guards is its five register writes
    followed by [finish]. *)
Lemma direct_run (fuel : nat) (dev addr data len flags : Z) (w : world) :
  dev < I2C_NUMOF -> data <> 0 -> 0 < len < 256 ->
  Z.land flags I2C_NOSTART = 0 -> Z.land flags I2C_ADDR10 = 0 ->
  direct_i2c_write_bytes fuel dev addr data len flags w =
  graft (advance w 0 (tx_setup dev addr data len flags))
        (finish fuel dev (tx_flag flags) (blank (hw w) (cursor w))).
Proof.
  intros. rewrite direct_accepted by assumption.
  now rewrite (io_only_finish fuel dev (tx_flag flags)).
Qed.

Lemma then_release_bind (m : M Z) (w : world) :
  (r <- m ;; mutex_unlock buffer_lock ;; ret r) w = then_release (m w).
Proof.
  unfold bind. destruct (m w); reflexivity.
Qed.

Lemma write_bytes_direct (fuel : nat) (dev addr data len flags : Z) (w : world) :
  in_ram data = true ->
  i2c_write_bytes fuel dev addr data len flags w =
  direct_i2c_write_bytes fuel dev addr data len flags w.
Proof.
  intros H. unfold i2c_write_bytes. now rewrite H.
Qed.

Lemma write_bytes_staged (fuel : nat) (dev addr data len flags : Z) (w : world) :
  in_ram data = false -> 0 < len < 256 ->
  i2c_write_bytes fuel dev addr data len flags w =
  then_release
    (direct_i2c_write_bytes fuel dev addr tx_buf len flags
       (staged w (copy (mem w) tx_buf data len) [Memcpy tx_buf data len])).
Proof.
  intros H [Hl Hu]. apply Z.ltb_lt in Hl, Hu.
  unfold i2c_write_bytes. rewrite H.
  unfold assert. rewrite Hl, Hu. simpl.
  unfold bind at 1 2 3. simpl.
  rewrite <- then_release_bind. unfold staged.
  rewrite <- app_assoc. reflexivity.
Qed.

Lemma write_regs_staged (fuel : nat) (dev addr reg data len flags : Z) (w : world) :
  dev < I2C_NUMOF -> data <> 0 -> 0 < len < 253 ->
  Z.land flags I2C_NOSTART = 0 -> Z.land flags I2C_ADDR10 = 0 ->
  i2c_write_regs fuel dev addr reg data len flags w =
  then_release
    (direct_i2c_write_bytes fuel dev addr tx_buf (reg_addr_len flags + len) flags
       (staged w
          (copy (with_selector (mem w) flags reg)
                (tx_buf + reg_addr_len flags) data len)
          (selector_stores flags reg
           ++ [Memcpy (tx_buf + reg_addr_len flags) data len]))).
Proof.
  intros Hd Hp Hl Hs Ha.
  unfold i2c_write_regs, assert.
  unfold bind at 1. rewrite (guard_passes dev data len 253 Hd Hp Hl).
  rewrite (flags_clear _ _ _ Hs Ha).
  unfold reg_addr_len, with_selector, selector_stores, staged.
  destruct (truthy (Z.land flags I2C_REG16)); simpl.
  - unfold bind at 1 2 3 4 5 6 7. simpl.
    rewrite <- then_release_bind.
    repeat rewrite <- app_assoc. reflexivity.
  - unfold bind at 1 2 3 4 5 6. simpl.
    rewrite <- then_release_bind.
    repeat rewrite <- app_assoc. reflexivity.
Qed.

(** *** The reads *)

Lemma flags3_clear (flags a b c : Z) :
  Z.land flags a = 0 -> Z.land flags b = 0 -> Z.land flags c = 0 ->
  truthy (Z.land flags (Z.lor (Z.lor a b) c)) = false.
Proof.
  intros Ha Hb Hc. rewrite !truthy_land_lor.
  apply truthy_false in Ha, Hb, Hc. now rewrite Ha, Hb, Hc.
Qed.

Lemma flags3_set (flags a b c : Z) :
  Z.land flags a <> 0 \/ Z.land flags b <> 0 \/ Z.land flags c <> 0 ->
  truthy (Z.land flags (Z.lor (Z.lor a b) c)) = true.
Proof.
  intros H. rewrite !truthy_land_lor, !orb_true_iff, !truthy_true. tauto.
Qed.

Lemma read_bytes_accepted (fuel : nat) (dev addr data len flags : Z) (w : world) :
  dev < I2C_NUMOF -> data <> 0 -> 0 < len < 256 ->
  Z.land flags I2C_NOSTART = 0 -> Z.land flags I2C_ADDR10 = 0 ->
  Z.land flags I2C_NOSTOP = 0 ->
  i2c_read_bytes fuel dev addr data len flags w =
  finish fuel dev TWIM_INTEN_STOPPED_Msk
         (advance w 0 (rx_setup dev addr data len)).
Proof.
  intros Hd Hp Hl Hs Ha Ht.
  unfold i2c_read_bytes, assert, bind.
  rewrite (guard_passes dev data len 256 Hd Hp Hl), (flags3_clear _ _ _ _ Hs Ha Ht).
  unfold rx_setup, advance, uint8_t. rewrite Z.mod_small by lia. simpl.
  repeat rewrite <- app_assoc. reflexivity.
Qed.

Lemma read_bytes_rejected (fuel : nat) (dev addr data len flags : Z) (w : world) :
  dev < I2C_NUMOF -> data <> 0 -> 0 < len < 256 ->
  Z.land flags I2C_NOSTART <> 0 \/ Z.land flags I2C_ADDR10 <> 0 \/
  Z.land flags I2C_NOSTOP <> 0 ->
  i2c_read_bytes fuel dev addr data len flags w = Returned (- EOPNOTSUPP) w.
Proof.
  intros Hd Hp Hl Hf.
  unfold i2c_read_bytes, assert, bind.
  now rewrite (guard_passes dev data len 256 Hd Hp Hl), (flags3_set _ _ _ _ Hf).
Qed.

Lemma read_regs_accepted (fuel : nat) (dev addr reg data len flags : Z) (w : world) :
  dev < I2C_NUMOF -> data <> 0 -> 0 < len < 256 ->
  Z.land flags I2C_NOSTART = 0 -> Z.land flags I2C_ADDR10 = 0 ->
  Z.land flags I2C_NOSTOP = 0 ->
  i2c_read_regs fuel dev addr reg data len flags w =
  finish fuel dev TWIM_INTEN_STOPPED_Msk
         (World (reg_in_memory (mem w) flags reg) (buffer_locked w) (hw w)
                (cursor w) (trace w ++ rxreg_setup dev addr data len flags)).
Proof.
  intros Hd Hp Hl Hs Ha Ht.
  unfold i2c_read_regs, assert, bind.
  rewrite (guard_passes dev data len 256 Hd Hp Hl), (flags3_clear _ _ _ _ Hs Ha Ht).
  unfold rxreg_setup, reg_in_memory, reg_addr_len, uint8_t.
  rewrite Z.mod_small by lia.
  destruct (truthy (Z.land flags I2C_REG16)); simpl;
    repeat rewrite <- app_assoc; reflexivity.
Qed.

Lemma read_regs_rejected (fuel : nat) (dev addr reg data len flags : Z) (w : world) :
  dev < I2C_NUMOF -> data <> 0 -> 0 < len < 256 ->
  Z.land flags I2C_NOSTART <> 0 \/ Z.land flags I2C_ADDR10 <> 0 \/
  Z.land flags I2C_NOSTOP <> 0 ->
  i2c_read_regs fuel dev addr reg data len flags w = Returned (- EOPNOTSUPP) w.
Proof.
  intros Hd Hp Hl Hf.
  unfold i2c_read_regs, assert, bind.
  now rewrite (guard_passes dev data len 256 Hd Hp Hl), (flags3_set _ _ _ _ Hf).
Qed.

Lemma write_regs_rejected (fuel : nat) (dev addr reg data len flags : Z) (w : world) :
  dev < I2C_NUMOF -> data <> 0 -> 0 < len < 253 ->
  Z.land flags I2C_NOSTART <> 0 \/ Z.land flags I2C_ADDR10 <> 0 ->
  i2c_write_regs fuel dev addr reg data len flags w = Returned (- EOPNOTSUPP) w.
Proof.
  intros Hd Hp Hl Hf.
  unfold i2c_write_regs, assert, bind.
  now rewrite (guard_passes dev data len 253 Hd Hp Hl), (flags_set _ _ _ Hf).
Qed.

(** *** What a staged or direct write leaves behind *)

Lemma then_release_facts (o : outcome Z) :
  trace (world_of (then_release o)) =
    trace (world_of o) ++ unlock_events (retval o) /\
  retval (then_release o) = retval o /\
  mem (world_of (then_release o)) = mem (world_of o) /\
  hw (world_of (then_release o)) = hw (world_of o) /\
  (retval o <> None -> buffer_locked (world_of (then_release o)) = false).
Proof.
  destruct o; simpl; rewrite ?app_nil_r; repeat split; congruence.
Qed.

Lemma direct_facts (fuel : nat) (dev addr data len flags : Z) (w : world) :
  dev < I2C_NUMOF -> data <> 0 -> 0 < len < 256 ->
  Z.land flags I2C_NOSTART = 0 -> Z.land flags I2C_ADDR10 = 0 ->
  let o := direct_i2c_write_bytes fuel dev addr data len flags w in
  trace (world_of o) =
    trace w ++ tx_setup dev addr data len flags
    ++ finish_trace fuel dev (tx_flag flags) (hw w) (cursor w) /\
  retval o = finish_result fuel dev (tx_flag flags) (hw w) (cursor w) /\
  mem (world_of o) = mem w /\
  hw (world_of o) = hw w /\
  buffer_locked (world_of o) = buffer_locked w.
Proof.
  intros Hd Hp Hl Hs Ha o. subst o.
  rewrite direct_run by assumption.
  rewrite world_of_graft, retval_graft. simpl.
  rewrite <- app_assoc. repeat split; reflexivity.
Qed.

End Calls.

(** ** Bytes in memory *)

Lemma load_ext (m1 m2 : Z -> Z) (p : Z) (n : nat) :
  (forall i, 0 <= i < Z.of_nat n -> m1 (p + i) = m2 (p + i)) ->
  load m1 p n = load m2 p n.
Proof.
  intros H. unfold load. apply map_ext_in. intros i Hi.
  apply in_seq in Hi. apply H. lia.
Qed.

Lemma load_succ (m : Z -> Z) (p : Z) (n : nat) :
  load m p (S n) = m p :: load m (p + 1) n.
Proof.
  unfold load. cbn [seq map]. rewrite Z.add_0_r. f_equal.
  rewrite <- seq_shift, map_map. apply map_ext. intros i. f_equal. lia.
Qed.

Lemma load_app (m : Z -> Z) (p : Z) (n k : nat) :
  load m p (n + k) = load m p n ++ load m (p + Z.of_nat n) k.
Proof.
  revert p. induction n as [| n IH]; intros p.
  - simpl. now rewrite Z.add_0_r.
  - cbn [Nat.add]. rewrite !load_succ, IH. simpl app. do 3 f_equal. lia.
Qed.

Lemma load_copy (m : Z -> Z) (dst src len : Z) :
  load (copy m dst src len) dst (Z.to_nat len) = load m src (Z.to_nat len).
Proof.
  unfold load. apply map_ext_in. intros i Hi. apply in_seq in Hi.
  unfold copy.
  replace ((dst <=? dst + Z.of_nat i) && (dst + Z.of_nat i <? dst + len))
    with true by (symmetry; apply andb_true_iff; split;
                  [apply Z.leb_le | apply Z.ltb_lt]; lia).
  f_equal. lia.
Qed.

Lemma load_copy_below (m : Z -> Z) (dst src len p : Z) (k : nat) :
  p + Z.of_nat k <= dst ->
  load (copy m dst src len) p k = load m p k.
Proof.
  intros H. apply load_ext. intros i Hi. unfold copy.
  replace (dst <=? p + i) with false by (symmetry; apply Z.leb_gt; lia).
  reflexivity.
Qed.

Lemma load_poke_apart (m : Z -> Z) (a v p : Z) (n : nat) :
  a < p \/ p + Z.of_nat n <= a ->
  load (poke m a v) p n = load m p n.
Proof.
  intros H. apply load_ext. intros i Hi. unfold poke.
  destruct (Z.eqb_spec (p + i) a); [lia | reflexivity].
Qed.

Lemma lor_shiftl_small (a b : Z) :
  0 <= b < 256 -> Z.lor (Z.shiftl a 8) b = a * 256 + b.
Proof.
  intros Hb.
  assert (H : Z.land (Z.shiftl a 8) b = 0).
  { apply Z.bits_inj'. intros n Hn.
    rewrite Z.land_spec, Z.bits_0.
    destruct (Z.ltb_spec n 8).
    - rewrite Z.shiftl_spec_low by lia. reflexivity.
    - destruct (Z.eq_dec b 0) as [-> | Hb0].
      + rewrite Z.bits_0. apply andb_false_r.
      + rewrite (Z.bits_above_log2 b n); [apply andb_false_r | lia |].
        assert (Z.log2 b < 8) by (apply Z.log2_lt_pow2; lia). lia. }
  rewrite <- (Z.lxor_lor _ _ H), <- (Z.add_nocarry_lxor _ _ H).
  rewrite Z.shiftl_mul_pow2 by lia. reflexivity.
Qed.

Lemma land_255 (x : Z) : Z.land x 255 = x mod 256.
Proof.
  change 255 with (Z.ones 8). rewrite Z.land_ones by lia. reflexivity.
Qed.

Lemma shiftr_8 (x : Z) : Z.shiftr x 8 = x / 256.
Proof.
  rewrite Z.shiftr_div_pow2 by lia. reflexivity.
Qed.

Lemma high_byte_range (x : Z) : 0 <= x < 65536 -> 0 <= x / 256 < 256.
Proof.
  intros Hx. split; [apply Z.div_pos; lia | apply Z.div_lt_upper_bound; lia].
Qed.

(** The two bytes of [htons x], as they lie in little-endian memory. *)
Lemma htons_bytes (x : Z) :
  0 <= x < 65536 ->
  htons x mod 256 = Z.shiftr x 8 /\ (htons x / 256) mod 256 = Z.land x 255.
Proof.
  intros Hx. unfold htons.
  pose proof (high_byte_range x Hx) as Hh.
  assert (Hl : 0 <= x mod 256 < 256) by (apply Z.mod_pos_bound; lia).
  rewrite lor_shiftl_small by (now rewrite shiftr_8).
  rewrite land_255, shiftr_8. split.
  - rewrite Z.add_comm, Z.mod_add by lia. apply Z.mod_small. lia.
  - rewrite Z.add_comm, Z.div_add by lia. rewrite (Z.div_small (x / 256)) by lia.
    simpl. apply Z.mod_small. lia.
Qed.

(** ** The writes, as a caller sees them *)

Section WriteFacts.
Context {T : Target}.

Lemma reg_addr_len_cases (flags : Z) :
  reg_addr_len flags = 1 \/ reg_addr_len flags = 2.
Proof.
  unfold reg_addr_len. destruct (truthy _); auto.
Qed.

Lemma write_regs_facts (fuel : nat) (dev addr reg data len flags : Z) (w : world) :
  dev < I2C_NUMOF -> data <> 0 -> 0 < len < 253 ->
  Z.land flags I2C_NOSTART = 0 -> Z.land flags I2C_ADDR10 = 0 ->
  tx_buf <> 0 ->
  let o := i2c_write_regs fuel dev addr reg data len flags w in
  let k := reg_addr_len flags in
  trace (world_of o) =
    trace w
    ++ MutexLock buffer_lock
       :: selector_stores flags reg
    ++ Memcpy (tx_buf + k) data len
       :: tx_setup dev addr tx_buf (k + len) flags
    ++ finish_trace fuel dev (tx_flag flags) (hw w) (cursor w)
    ++ unlock_events (retval o) /\
  retval o = finish_result fuel dev (tx_flag flags) (hw w) (cursor w) /\
  mem (world_of o) =
    copy (with_selector (mem w) flags reg) (tx_buf + k) data len /\
  (retval o <> None -> buffer_locked (world_of o) = false).
Proof.
  intros Hd Hp Hl Hs Ha Hb o k. subst o k.
  rewrite write_regs_staged by assumption.
  set (w1 := staged w _ _).
  assert (Hk : 0 < reg_addr_len flags + len < 256)
    by (destruct (reg_addr_len_cases flags) as [-> | ->]; lia).
  destruct (direct_facts fuel dev addr tx_buf (reg_addr_len flags + len) flags w1
              Hd Hb Hk Hs Ha) as (Ht & Hr & Hm & _ & _).
  destruct (then_release_facts
              (direct_i2c_write_bytes fuel dev addr tx_buf
                 (reg_addr_len flags + len) flags w1))
    as (Ht' & Hr' & Hm' & _ & Hl').
  rewrite Ht', Hr', Hm', Ht, Hr, Hm. subst w1. simpl.
  repeat split.
  - repeat (rewrite <- app_assoc; simpl). reflexivity.
  - intros H. apply Hl'. rewrite Hr. exact H.
Qed.

Lemma write_bytes_staged_facts (fuel : nat) (dev addr data len flags : Z) (w : world) :
  in_ram data = false ->
  dev < I2C_NUMOF -> 0 < len < 256 ->
  Z.land flags I2C_NOSTART = 0 -> Z.land flags I2C_ADDR10 = 0 ->
  tx_buf <> 0 ->
  let o := i2c_write_bytes fuel dev addr data len flags w in
  trace (world_of o) =
    trace w
    ++ MutexLock buffer_lock
       :: Memcpy tx_buf data len
       :: tx_setup dev addr tx_buf len flags
    ++ finish_trace fuel dev (tx_flag flags) (hw w) (cursor w)
    ++ unlock_events (retval o) /\
  retval o = finish_result fuel dev (tx_flag flags) (hw w) (cursor w) /\
  mem (world_of o) = copy (mem w) tx_buf data len /\
  (retval o <> None -> buffer_locked (world_of o) = false).
Proof.
  intros Hr Hd Hl Hs Ha Hb o. subst o.
  rewrite write_bytes_staged by assumption.
  set (w1 := staged w _ _).
  destruct (direct_facts fuel dev addr tx_buf len flags w1 Hd Hb Hl Hs Ha)
    as (Ht & Hv & Hm & _ & _).
  destruct (then_release_facts
              (direct_i2c_write_bytes fuel dev addr tx_buf len flags w1))
    as (Ht' & Hr' & Hm' & _ & Hl').
  rewrite Ht', Hr', Hm', Ht, Hv, Hm. subst w1. simpl.
  repeat split.
  - repeat (rewrite <- app_assoc; simpl). reflexivity.
  - intros H. apply Hl'. rewrite Hv. exact H.
Qed.

Lemma write_bytes_direct_facts (fuel : nat) (dev addr data len flags : Z) (w : world) :
  in_ram data = true ->
  dev < I2C_NUMOF -> data <> 0 -> 0 < len < 256 ->
  Z.land flags I2C_NOSTART = 0 -> Z.land flags I2C_ADDR10 = 0 ->
  let o := i2c_write_bytes fuel dev addr data len flags w in
  trace (world_of o) =
    trace w
    ++ tx_setup dev addr data len flags
    ++ finish_trace fuel dev (tx_flag flags) (hw w) (cursor w) /\
  retval o = finish_result fuel dev (tx_flag flags) (hw w) (cursor w) /\
  mem (world_of o) = mem w /\
  buffer_locked (world_of o) = buffer_locked w.
Proof.
  intros Hr Hd Hp Hl Hs Ha o. subst o.
  rewrite write_bytes_direct by assumption.
  destruct (direct_facts fuel dev addr data len flags w Hd Hp Hl Hs Ha)
    as (Ht & Hv & Hm & _ & Hb).
  repeat split; assumption.
Qed.

End WriteFacts.

(** * The wait-and-classify routine *)

Section Finish.
Context {T : Target}.

(** C2.  When, after the completion wait, the error event reads non-zero,
    [finish] writes 0 to the error event; then, if the error source read has
    the address NACK bit, it writes that bit's mask back to the error source
    (the peripheral's way of clearing it) and returns [-ENXIO], whatever the
    data NACK bit is; otherwise, if the error source read again has the data
    NACK bit, it writes that mask back and returns [-EIO]. *)
Theorem finish_reports_nack (fuel : nat) (dev flag : Z) (w w1 : world) :
  await fuel dev flag w = Returned tt w1 ->
  let e := hw w1 (cursor w1) in
  let x := hw w1 (S (cursor w1)) in
  let y := hw w1 (S (S (cursor w1))) in
  e <> 0 ->
  (Z.land x TWIM_ERRORSRC_ANACK_Msk <> 0 ->
   finish fuel dev flag w =
   Returned (- ENXIO)
     (advance w1 2
        [PipIn (twim dev EVENTS_ERROR_INDEX) e;
         PipOut (twim dev EVENTS_ERROR_INDEX) 0;
         PipIn (twim dev ERRORSRC_INDEX) x;
         PipOut (twim dev ERRORSRC_INDEX) TWIM_ERRORSRC_ANACK_Msk])) /\
  (Z.land x TWIM_ERRORSRC_ANACK_Msk = 0 ->
   Z.land y TWIM_ERRORSRC_DNACK_Msk <> 0 ->
   finish fuel dev flag w =
   Returned (- EIO)
     (advance w1 3
        [PipIn (twim dev EVENTS_ERROR_INDEX) e;
         PipOut (twim dev EVENTS_ERROR_INDEX) 0;
         PipIn (twim dev ERRORSRC_INDEX) x;
         PipIn (twim dev ERRORSRC_INDEX) y;
         PipOut (twim dev ERRORSRC_INDEX) TWIM_ERRORSRC_DNACK_Msk])).
Proof.
  intros Hw e x y He. unfold finish, bind. rewrite Hw. split.
  - intros Hx. exact (classify_anack dev w1 He Hx).
  - intros Hx Hy. exact (classify_dnack dev w1 He Hx Hy).
Qed.

(** C10.  When, after the completion wait, the error event reads non-zero
    but the error source shows neither NACK bit, [finish] writes 0 to the
    error event, writes nothing to the error source, and returns 0. *)
Theorem finish_other_error_is_success (fuel : nat) (dev flag : Z) (w w1 : world) :
  await fuel dev flag w = Returned tt w1 ->
  let e := hw w1 (cursor w1) in
  let x := hw w1 (S (cursor w1)) in
  let y := hw w1 (S (S (cursor w1))) in
  let evs := [PipIn (twim dev EVENTS_ERROR_INDEX) e;
              PipOut (twim dev EVENTS_ERROR_INDEX) 0;
              PipIn (twim dev ERRORSRC_INDEX) x;
              PipIn (twim dev ERRORSRC_INDEX) y] in
  e <> 0 ->
  Z.land x TWIM_ERRORSRC_ANACK_Msk = 0 ->
  Z.land y TWIM_ERRORSRC_DNACK_Msk = 0 ->
  finish fuel dev flag w = Returned 0 (advance w1 3 evs) /\
  (PIP_NRF_TWIM_TWIM1 EVENTS_ERROR_INDEX <> PIP_NRF_TWIM_TWIM1 ERRORSRC_INDEX ->
   count_out (twim dev ERRORSRC_INDEX) evs = 0%nat).
Proof.
  intros Hw e x y evs He Hx Hy. split.
  - unfold finish, bind. rewrite Hw. exact (classify_other dev w1 He Hx Hy).
  - intros Hne. unfold evs, count_out, twim. simpl.
    destruct (Z.eqb_spec (bus dev + PIP_NRF_TWIM_TWIM1 EVENTS_ERROR_INDEX)
                (bus dev + PIP_NRF_TWIM_TWIM1 ERRORSRC_INDEX)); [lia | reflexivity].
Qed.

End Finish.

(** A stop event, then an error whose source is the address NACK; the same
    with the data NACK. *)
Lemma finish_reports_nack_witness :
  retval (finish 0 0 TWIM_INTEN_STOPPED_Msk w_anack) = Some (- 6) /\
  retval (finish 0 0 TWIM_INTEN_STOPPED_Msk w_dnack) = Some (- 5).
Proof.
  split.
  - pose proof (finish_reports_nack (T:=dwm1001) 0 0 TWIM_INTEN_STOPPED_Msk w_anack
                  (world_of (await 0 0 TWIM_INTEN_STOPPED_Msk w_anack))) as H.
    specialize (H ltac:(vm_compute; reflexivity)). cbv zeta in H.
    specialize (H ltac:(vm_compute; discriminate)). destruct H as [H _].
    specialize (H ltac:(vm_compute; discriminate)).
    rewrite H. reflexivity.
  - pose proof (finish_reports_nack (T:=dwm1001) 0 0 TWIM_INTEN_STOPPED_Msk w_dnack
                  (world_of (await 0 0 TWIM_INTEN_STOPPED_Msk w_dnack))) as H.
    specialize (H ltac:(vm_compute; reflexivity)). cbv zeta in H.
    specialize (H ltac:(vm_compute; discriminate)). destruct H as [_ H].
    specialize (H ltac:(vm_compute; reflexivity) ltac:(vm_compute; discriminate)).
    rewrite H. reflexivity.
Defined.

(** A stop event, then an error whose source shows an overrun only. *)
Lemma finish_other_error_is_success_witness :
  retval (finish 0 0 TWIM_INTEN_STOPPED_Msk w_overrun) = Some 0.
Proof.
  pose proof (finish_other_error_is_success (T:=dwm1001) 0 0 TWIM_INTEN_STOPPED_Msk
                w_overrun (world_of (await 0 0 TWIM_INTEN_STOPPED_Msk w_overrun))) as H.
  specialize (H ltac:(vm_compute; reflexivity)). cbv zeta in H.
  specialize (H ltac:(vm_compute; discriminate) ltac:(vm_compute; reflexivity)
                ltac:(vm_compute; reflexivity)).
  destruct H as [H _]. rewrite H. reflexivity.
Defined.

(** * Flags and guards *)

Section Guards.
Context {T : Target}.

(** C1, as the driver has it.  With the asserted preconditions met and
    suppress-stop set, the two reads return [-EOPNOTSUPP] and do nothing
    else.  The register-prefixed write does not look at suppress-stop: it
    stages selector and payload and runs the write without a stop (shorts
    register 0, wait for the last transmitted byte), and returns what
    [finish] returns.  The plain write accepts the flag as well: from RAM or
    through [tx_buf], it programs the same write without a stop and returns
    what [finish] returns. *)
Theorem nostop_rejected_by_reads_only
    (fuel : nat) (dev addr reg data len flags : Z) (w : world) :
  dev < I2C_NUMOF -> data <> 0 -> Z.land flags I2C_NOSTOP <> 0 ->
  (0 < len < 256 ->
   i2c_read_bytes fuel dev addr data len flags w = Returned (- EOPNOTSUPP) w) /\
  (0 < len < 256 ->
   i2c_read_regs fuel dev addr reg data len flags w = Returned (- EOPNOTSUPP) w) /\
  (0 < len < 253 ->
   Z.land flags I2C_NOSTART = 0 -> Z.land flags I2C_ADDR10 = 0 -> tx_buf <> 0 ->
   let o := i2c_write_regs fuel dev addr reg data len flags w in
   let k := reg_addr_len flags in
   trace (world_of o) =
     trace w
     ++ MutexLock buffer_lock
        :: selector_stores flags reg
     ++ Memcpy (tx_buf + k) data len
        :: [PipOut (twim dev ADDRESS_INDEX) addr;
            PipOut (twim dev TXD_PTR_INDEX) tx_buf;
            PipOut (twim dev TXD_MAXCNT_INDEX) (k + len);
            PipOut (twim dev SHORTS_INDEX) 0;
            PipOut (twim dev TASKS_STARTTX_INDEX) 1]
     ++ finish_trace fuel dev TWIM_INTEN_LASTTX_Msk (hw w) (cursor w)
     ++ unlock_events (retval o) /\
   retval o = finish_result fuel dev TWIM_INTEN_LASTTX_Msk (hw w) (cursor w)) /\
  (0 < len < 256 ->
   Z.land flags I2C_NOSTART = 0 -> Z.land flags I2C_ADDR10 = 0 -> tx_buf <> 0 ->
   let o := i2c_write_bytes fuel dev addr data len flags w in
   let p := if in_ram data then data else tx_buf in
   let pre :=
     if in_ram data then []
     else [MutexLock buffer_lock; Memcpy tx_buf data len] in
   let post := if in_ram data then [] else unlock_events (retval o) in
   trace (world_of o) =
     trace w
     ++ pre
     ++ [PipOut (twim dev ADDRESS_INDEX) addr;
         PipOut (twim dev TXD_PTR_INDEX) p;
         PipOut (twim dev TXD_MAXCNT_INDEX) len;
         PipOut (twim dev SHORTS_INDEX) 0;
         PipOut (twim dev TASKS_STARTTX_INDEX) 1]
     ++ finish_trace fuel dev TWIM_INTEN_LASTTX_Msk (hw w) (cursor w)
     ++ post /\
   retval o = finish_result fuel dev TWIM_INTEN_LASTTX_Msk (hw w) (cursor w)).
Proof.
  intros Hd Hp Hn.
  assert (Hstop : truthy (Z.land flags I2C_NOSTOP) = true)
    by now apply truthy_true.
  split; [| split; [| split]].
  - intros Hl. apply read_bytes_rejected; auto.
  - intros Hl. apply read_regs_rejected; auto.
  - intros Hl Hs Ha Hb.
    destruct (write_regs_facts fuel dev addr reg data len flags w)
      as (Ht & Hr & _); try assumption.
    cbv zeta in Ht, Hr |- *. rewrite Ht, Hr.
    unfold tx_setup, tx_shorts, tx_flag. rewrite Hstop. split; reflexivity.
  - intros Hl Hs Ha Hb. cbv zeta.
    destruct (in_ram data) eqn:Hram.
    + destruct (write_bytes_direct_facts fuel dev addr data len flags w)
        as (Ht & Hr & _); try assumption.
      cbv zeta in Ht, Hr. rewrite Ht, Hr.
      unfold tx_setup, tx_shorts, tx_flag. rewrite Hstop.
      simpl. rewrite app_nil_r. split; reflexivity.
    + destruct (write_bytes_staged_facts fuel dev addr data len flags w)
        as (Ht & Hr & _); try assumption.
      cbv zeta in Ht, Hr. rewrite Ht, Hr.
      unfold tx_setup, tx_shorts, tx_flag. rewrite Hstop.
      simpl. split; reflexivity.
Qed.

(** C3, as the driver has it.  With the asserted preconditions met and
    suppress-start or 10-bit-address set, every operation returns
    [-EOPNOTSUPP] and neither reads nor writes a register.  The two reads,
    the register-prefixed write and the plain write from RAM leave the world
    as it was.  The plain write from outside RAM has by then taken
    [buffer_lock] and copied the [len] bytes to [tx_buf]; it gives the lock
    back before it returns. *)
Theorem unsupported_flags_rejected
    (fuel : nat) (dev addr reg data len flags : Z) (w : world) :
  dev < I2C_NUMOF -> data <> 0 ->
  Z.land flags I2C_NOSTART <> 0 \/ Z.land flags I2C_ADDR10 <> 0 ->
  (0 < len < 253 ->
   i2c_write_regs fuel dev addr reg data len flags w = Returned (- EOPNOTSUPP) w) /\
  (0 < len < 256 ->
   i2c_read_bytes fuel dev addr data len flags w = Returned (- EOPNOTSUPP) w) /\
  (0 < len < 256 ->
   i2c_read_regs fuel dev addr reg data len flags w = Returned (- EOPNOTSUPP) w) /\
  (0 < len < 256 -> in_ram data = true ->
   i2c_write_bytes fuel dev addr data len flags w = Returned (- EOPNOTSUPP) w) /\
  (0 < len < 256 -> in_ram data = false -> tx_buf <> 0 ->
   i2c_write_bytes fuel dev addr data len flags w =
   Returned (- EOPNOTSUPP)
     (World (copy (mem w) tx_buf data len) false (hw w) (cursor w)
            (trace w ++ [MutexLock buffer_lock;
                         Memcpy tx_buf data len;
                         MutexUnlock buffer_lock]))).
Proof.
  intros Hd Hp Hf. repeat split; intros Hl.
  - apply write_regs_rejected; auto.
  - apply read_bytes_rejected; tauto.
  - apply read_regs_rejected; tauto.
  - intros Hr. rewrite write_bytes_direct by assumption.
    apply direct_rejected; auto.
  - intros Hr Hb. rewrite write_bytes_staged by assumption.
    rewrite direct_rejected by assumption.
    unfold then_release, release, staged. simpl.
    rewrite <- app_assoc. reflexivity.
Qed.

(** What the guards do catch: every violation in the three operations that
    assert on entry, and a bad length in the plain write. *)
Lemma contract_violations_panic
    (fuel : nat) (dev addr reg data len flags : Z) (w : world) :
  (I2C_NUMOF <= dev \/ data = 0 \/ len <= 0 \/ 253 <= len ->
   i2c_write_regs fuel dev addr reg data len flags w = Panicked w) /\
  (I2C_NUMOF <= dev \/ data = 0 \/ len <= 0 \/ 256 <= len ->
   i2c_read_bytes fuel dev addr data len flags w = Panicked w /\
   i2c_read_regs fuel dev addr reg data len flags w = Panicked w) /\
  (len <= 0 \/ 256 <= len ->
   i2c_write_bytes fuel dev addr data len flags w = Panicked w).
Proof.
  split; [| split]; intros H.
  - unfold i2c_write_regs, assert, bind. now rewrite guard_fails.
  - split.
    + unfold i2c_read_bytes, assert, bind. now rewrite guard_fails.
    + unfold i2c_read_regs, assert, bind. now rewrite guard_fails.
  - unfold i2c_write_bytes. destruct (in_ram data).
    + apply direct_panics. tauto.
    + unfold assert, bind.
      replace ((0 <? len) && (len <? 256)) with false; [reflexivity |].
      symmetry. rewrite andb_false_iff, !Z.ltb_ge. tauto.
Qed.

(** A null source is not in RAM when RAM does not start at address 0; the
    plain write then copies from it, and the [data] that the direct write
    asserts on is [tx_buf]. *)
Lemma write_bytes_null_source
    (fuel : nat) (dev addr len flags : Z) (w : world) :
  0 < CPU_RAM_BASE -> tx_buf <> 0 ->
  dev < I2C_NUMOF -> 0 < len < 256 ->
  Z.land flags I2C_NOSTART = 0 -> Z.land flags I2C_ADDR10 = 0 ->
  let o := i2c_write_bytes fuel dev addr 0 len flags w in
  (forall w', o <> Panicked w') /\
  trace (world_of o) =
    trace w
    ++ MutexLock buffer_lock
       :: Memcpy tx_buf 0 len
       :: tx_setup dev addr tx_buf len flags
    ++ finish_trace fuel dev (tx_flag flags) (hw w) (cursor w)
    ++ unlock_events (retval o).
Proof.
  intros Hb Ht Hd Hl Hs Ha o.
  assert (Hr : in_ram 0 = false).
  { unfold in_ram. replace (CPU_RAM_BASE <=? 0) with false; [reflexivity |].
    symmetry. apply Z.leb_gt. exact Hb. }
  split.
  - subst o. rewrite write_bytes_staged by assumption.
    rewrite direct_run by assumption.
    destruct (finish _ _ _ _) eqn:E; simpl; try discriminate.
    exfalso. unfold finish, bind in E.
    destruct (await _ _ _ _) as [[] w1 | w1 | w1] eqn:Ew.
    + destruct (classify_returns dev w1) as (r & w2 & Hc). congruence.
    + unfold await, bind in Ew. simpl in Ew.
      destruct (truthy (hw _ _)); simpl in Ew;
        destruct (truthy (Z.land _ _)); simpl in Ew; try discriminate;
        match type of Ew with
        | busy_wait ?f ?d ?x = _ =>
            destruct (first_done f (hw x) (cursor x)) eqn:F;
            [rewrite (busy_wait_done f d x _ F) in Ew
            | rewrite (busy_wait_spin f d x F) in Ew]; discriminate
        end.
    + discriminate.
  - destruct (write_bytes_staged_facts fuel dev addr 0 len flags w Hr Hd Hl Hs Ha Ht)
      as (H & _). exact H.
Qed.

End Guards.

(** C1, as stated, fails: a register-prefixed write with suppress-stop set
    is carried out and returns 0. *)
Lemma nostop_write_regs_counterexample :
  Z.land I2C_NOSTOP I2C_NOSTOP <> 0 /\
  retval (i2c_write_regs 1 0 0x50 0x10 0x20001000 2 I2C_NOSTOP w_nostop) = Some 0 /\
  0 <> - EOPNOTSUPP.
Proof.
  vm_compute. repeat split; discriminate.
Qed.

Lemma nostop_rejected_by_reads_only_witness :
  i2c_read_bytes 0 0 0x50 0x20001000 2 I2C_NOSTOP w_stop = Returned (- 95) w_stop /\
  i2c_read_regs 0 0 0x50 0x10 0x20001000 2 I2C_NOSTOP w_stop = Returned (- 95) w_stop /\
  retval (i2c_write_regs 1 0 0x50 0x10 0x20001000 2 I2C_NOSTOP w_nostop) =
    finish_result 1 0 TWIM_INTEN_LASTTX_Msk (answers [0; 3; 3; 0]) 0 /\
  retval (i2c_write_bytes 1 0 0x50 0x20001000 2 I2C_NOSTOP w_sent2) = Some 0 /\
  retval (i2c_write_bytes 1 0 0x50 0x1000 2 I2C_NOSTOP w_flash_sent2) = Some 0.
Proof.
  pose proof (nostop_rejected_by_reads_only (T:=dwm1001)
                0 0 0x50 0x10 0x20001000 2 I2C_NOSTOP w_stop) as H.
  specialize (H ltac:(vm_compute; reflexivity) ltac:(discriminate)
                ltac:(vm_compute; discriminate)).
  destruct H as (H1 & H2 & _).
  specialize (H1 ltac:(lia)). specialize (H2 ltac:(lia)).
  pose proof (nostop_rejected_by_reads_only (T:=dwm1001)
                1 0 0x50 0x10 0x20001000 2 I2C_NOSTOP w_nostop) as H.
  specialize (H ltac:(vm_compute; reflexivity) ltac:(discriminate)
                ltac:(vm_compute; discriminate)).
  destruct H as (_ & _ & H3 & _).
  specialize (H3 ltac:(lia) ltac:(vm_compute; reflexivity)
                 ltac:(vm_compute; reflexivity) ltac:(vm_compute; discriminate)).
  cbv zeta in H3. destruct H3 as (_ & H3).
  pose proof (nostop_rejected_by_reads_only (T:=dwm1001)
                1 0 0x50 0x10 0x20001000 2 I2C_NOSTOP w_sent2) as H.
  specialize (H ltac:(vm_compute; reflexivity) ltac:(discriminate)
                ltac:(vm_compute; discriminate)).
  destruct H as (_ & _ & _ & H4).
  specialize (H4 ltac:(lia) ltac:(vm_compute; reflexivity)
                 ltac:(vm_compute; reflexivity) ltac:(vm_compute; discriminate)).
  cbv zeta in H4. destruct H4 as (_ & H4).
  pose proof (nostop_rejected_by_reads_only (T:=dwm1001)
                1 0 0x50 0x10 0x1000 2 I2C_NOSTOP w_flash_sent2) as H.
  specialize (H ltac:(vm_compute; reflexivity) ltac:(discriminate)
                ltac:(vm_compute; discriminate)).
  destruct H as (_ & _ & _ & H5).
  specialize (H5 ltac:(lia) ltac:(vm_compute; reflexivity)
                 ltac:(vm_compute; reflexivity) ltac:(vm_compute; discriminate)).
  cbv zeta in H5. destruct H5 as (_ & H5).
  split; [exact H1 | split; [exact H2 | split; [exact H3 | split]]].
  - rewrite H4. vm_compute. reflexivity.
  - rewrite H5. vm_compute. reflexivity.
Defined.

(** C3, as stated, fails: a plain write from flash with suppress-start set is
    rejected only after [buffer_lock] was taken and [tx_buf] overwritten. *)
Lemma rejected_write_stages_first_counterexample :
  let o := i2c_write_bytes 0 0 0x50 0x1000 2 I2C_NOSTART w_flash in
  Z.land I2C_NOSTART I2C_NOSTART <> 0 /\
  retval o = Some (- EOPNOTSUPP) /\
  trace (world_of o) =
    [MutexLock buffer_lock; Memcpy tx_buf 0x1000 2; MutexUnlock buffer_lock] /\
  mem w_flash tx_buf = 0 /\
  mem (world_of o) tx_buf = 0xC1.
Proof.
  vm_compute. repeat split; discriminate.
Qed.

Lemma unsupported_flags_rejected_witness :
  i2c_write_regs 0 0 0x50 0x10 0x20001000 2 I2C_NOSTART w_stop
    = Returned (- EOPNOTSUPP) w_stop /\
  i2c_read_bytes 0 0 0x50 0x20001000 2 I2C_NOSTART w_stop
    = Returned (- EOPNOTSUPP) w_stop /\
  i2c_write_bytes 0 0 0x50 0x20001000 2 I2C_NOSTART w_stop
    = Returned (- EOPNOTSUPP) w_stop.
Proof.
  pose proof (unsupported_flags_rejected (T:=dwm1001)
                0 0 0x50 0x10 0x20001000 2 I2C_NOSTART w_stop) as H.
  specialize (H ltac:(vm_compute; reflexivity) ltac:(discriminate)
                ltac:(left; vm_compute; discriminate)).
  destruct H as (H1 & H2 & _ & H4 & _).
  specialize (H1 ltac:(lia)). specialize (H2 ltac:(lia)).
  specialize (H4 ltac:(lia) ltac:(vm_compute; reflexivity)).
  split; [exact H1 | split; [exact H2 | exact H4]].
Defined.

(** C9 fails in the plain write: called with a null source, one byte and no
    flag, it asserts nothing, copies one byte from address 0 into [tx_buf],
    transmits it and returns 0. *)
Theorem write_bytes_null_source_runs :
  let o := i2c_write_bytes 0 0 0x50 0 1 0 w_stop in
  retval o = Some 0 /\
  trace (world_of o) =
    [MutexLock buffer_lock;
     Memcpy tx_buf 0 1;
     PipOut (twim 0 ADDRESS_INDEX) 0x50;
     PipOut (twim 0 TXD_PTR_INDEX) tx_buf;
     PipOut (twim 0 TXD_MAXCNT_INDEX) 1;
     PipOut (twim 0 SHORTS_INDEX) TWIM_SHORTS_LASTTX_STOP_Msk;
     PipOut (twim 0 TASKS_STARTTX_INDEX) 1;
     PipOut (twim 0 INTENSET_INDEX) (Z.lor TWIM_INTEN_STOPPED_Msk TWIM_INTEN_ERROR_Msk);
     MutexLock (busy 0);
     PipIn (twim 0 EVENTS_STOPPED_INDEX) 1;
     PipOut (twim 0 EVENTS_STOPPED_INDEX) 0;
     PipIn (twim 0 EVENTS_ERROR_INDEX) 0;
     MutexUnlock buffer_lock].
Proof.
  vm_compute. split; reflexivity.
Qed.

(** * Register-prefixed transfers *)

(** Membership in a trace that is written as a chain of [++] and [::]. *)
Ltac find_in :=
  repeat first [ apply in_eq | apply in_cons | (apply in_or_app; right) ].

Section Selector.
Context {T : Target}.

Lemma uint8_high (reg : Z) :
  0 <= reg < 65536 -> uint8_t (Z.shiftr reg 8) = Z.shiftr reg 8.
Proof.
  intros H. unfold uint8_t. rewrite shiftr_8. apply Z.mod_small.
  now apply high_byte_range.
Qed.

Lemma uint8_low (reg : Z) : uint8_t (Z.land reg 255) = Z.land reg 255.
Proof.
  unfold uint8_t. rewrite land_255. apply Z.mod_mod. lia.
Qed.

Lemma uint8_trunc (reg : Z) : uint8_t reg = Z.land reg 255.
Proof.
  unfold uint8_t. now rewrite land_255.
Qed.

Lemma poke_same (m : Z -> Z) (a v : Z) : poke m a v a = v.
Proof.
  unfold poke. now rewrite Z.eqb_refl.
Qed.

Lemma poke_other (m : Z -> Z) (a v x : Z) : x <> a -> poke m a v x = m x.
Proof.
  intros H. unfold poke. now destruct (Z.eqb_spec x a).
Qed.

Lemma load_with_selector (m : Z -> Z) (flags reg : Z) :
  0 <= reg < 65536 ->
  load (with_selector m flags reg) tx_buf (Z.to_nat (reg_addr_len flags)) =
  selector flags reg.
Proof.
  intros Hr. unfold with_selector, reg_addr_len, selector.
  destruct (truthy (Z.land flags I2C_REG16)).
  - change (Z.to_nat 2) with 2%nat. rewrite !load_succ. unfold load. simpl.
    rewrite Z.add_0_r.
    rewrite poke_other, !poke_same by lia.
    now rewrite uint8_high, uint8_low.
  - change (Z.to_nat 1) with 1%nat. rewrite !load_succ. unfold load. simpl.
    rewrite Z.add_0_r, poke_same. now rewrite uint8_trunc.
Qed.

Lemma load_reg_in_memory (m : Z -> Z) (flags reg : Z) :
  0 <= reg < 65536 ->
  load (reg_in_memory m flags reg) addr_of_reg (Z.to_nat (reg_addr_len flags)) =
  selector flags reg.
Proof.
  intros Hr. unfold reg_in_memory, reg_addr_len, selector, poke16.
  destruct (truthy (Z.land flags I2C_REG16)).
  - change (Z.to_nat 2) with 2%nat. rewrite !load_succ. unfold load. simpl.
    rewrite poke_same, poke_other, poke_same by lia.
    destruct (htons_bytes reg Hr) as [-> ->]. reflexivity.
  - change (Z.to_nat 1) with 1%nat. rewrite !load_succ. unfold load. simpl.
    rewrite poke_same. now rewrite land_255.
Qed.

(** The selector bytes stay where they were put when the payload is copied
    behind them from a buffer that is not [tx_buf] itself. *)
Lemma load_staged_regs (m : Z -> Z) (flags reg data len : Z) :
  0 <= reg < 65536 -> 0 < len ->
  data + len <= tx_buf \/ tx_buf + 256 <= data ->
  let k := reg_addr_len flags in
  load (copy (with_selector m flags reg) (tx_buf + k) data len)
       tx_buf (Z.to_nat (k + len)) =
  selector flags reg ++ load m data (Z.to_nat len).
Proof.
  intros Hr Hl Hd k.
  assert (Hk : k = 1 \/ k = 2) by apply reg_addr_len_cases.
  rewrite Z2Nat.inj_add by lia. rewrite load_app.
  rewrite Z2Nat.id by lia. f_equal.
  - rewrite load_copy_below by (rewrite Z2Nat.id; lia).
    now apply load_with_selector.
  - rewrite load_copy. unfold with_selector.
    destruct (truthy (Z.land flags I2C_REG16));
      rewrite ?load_poke_apart; try reflexivity; rewrite Z2Nat.id; lia.
Qed.

(** C4.  For a register value [reg] (a [uint16_t]) the bytes that the
    hardware is pointed at are [reg >> 8, reg & 0xFF] when the 16-bit
    register flag is set and [reg & 0xFF] alone otherwise: in [tx_buf] for
    the register-prefixed write, at [&reg] for the register-prefixed read,
    whose transmit count is the selector's length. *)
Theorem selector_bytes_on_the_wire
    (fuel : nat) (dev addr reg data len flags : Z) (w : world) :
  0 <= reg < 65536 ->
  dev < I2C_NUMOF -> data <> 0 ->
  Z.land flags I2C_NOSTART = 0 -> Z.land flags I2C_ADDR10 = 0 ->
  let n := Z.to_nat (reg_addr_len flags) in
  let bytes :=
    if truthy (Z.land flags I2C_REG16)
    then [Z.shiftr reg 8; Z.land reg 255]
    else [Z.land reg 255] in
  (0 < len < 253 -> tx_buf <> 0 ->
   let w' := world_of (i2c_write_regs fuel dev addr reg data len flags w) in
   load (mem w') tx_buf n = bytes /\
   In (PipOut (twim dev TXD_PTR_INDEX) tx_buf) (trace w')) /\
  (0 < len < 256 -> Z.land flags I2C_NOSTOP = 0 ->
   let w' := world_of (i2c_read_regs fuel dev addr reg data len flags w) in
   load (mem w') addr_of_reg n = bytes /\
   In (PipOut (twim dev TXD_PTR_INDEX) addr_of_reg) (trace w') /\
   In (PipOut (twim dev TXD_MAXCNT_INDEX) (reg_addr_len flags)) (trace w')).
Proof.
  intros Hr Hd Hp Hs Ha n bytes. split.
  - intros Hl Hb w'. subst w'.
    destruct (write_regs_facts fuel dev addr reg data len flags w)
      as (Ht & _ & Hm & _); try assumption.
    rewrite Ht, Hm. split.
    + subst n. rewrite load_copy_below by (rewrite Z2Nat.id;
        destruct (reg_addr_len_cases flags) as [-> | ->]; lia).
      now apply load_with_selector.
    + unfold tx_setup. find_in.
  - intros Hl Ht w'. subst w'.
    rewrite read_regs_accepted by assumption.
    destruct (finish_frame fuel dev TWIM_INTEN_STOPPED_Msk
                (World (reg_in_memory (mem w) flags reg) (buffer_locked w) (hw w)
                   (cursor w) (trace w ++ rxreg_setup dev addr data len flags)))
      as (Hm & _ & _ & Htr & _).
    rewrite Hm, Htr. simpl. repeat split.
    + now apply load_reg_in_memory.
    + apply in_or_app; left. unfold rxreg_setup. find_in.
    + apply in_or_app; left. unfold rxreg_setup. find_in.
Qed.

End Selector.

Lemma selector_bytes_on_the_wire_witness :
  load (mem (world_of (i2c_write_regs 0 0 0x50 0x1234 0x20001000 2 I2C_REG16 w_stop)))
       tx_buf 2 = [0x12; 0x34] /\
  load (mem (world_of (i2c_read_regs 0 0 0x50 0x1234 0x20001000 2 I2C_REG16 w_stop)))
       addr_of_reg 2 = [0x12; 0x34].
Proof.
  pose proof (selector_bytes_on_the_wire (T:=dwm1001)
                0 0 0x50 0x1234 0x20001000 2 I2C_REG16 w_stop) as H.
  specialize (H ltac:(lia) ltac:(vm_compute; reflexivity) ltac:(discriminate)
                ltac:(vm_compute; reflexivity) ltac:(vm_compute; reflexivity)).
  cbv zeta in H. destruct H as (H1 & H2).
  specialize (H1 ltac:(lia) ltac:(vm_compute; discriminate)).
  specialize (H2 ltac:(lia) ltac:(vm_compute; reflexivity)).
  destruct H1 as (H1 & _). destruct H2 as (H2 & _).
  vm_compute in H1, H2 |- *. split; [exact H1 | exact H2].
Defined.

Section OneTransaction.
Context {T : Target}.

Lemma twim_apart (dev : Z) (r r' : twim_reg) :
  indices_apart -> r <> EVENTS_ERROR -> r' <> EVENTS_ERROR -> r <> r' ->
  (twim dev r =? twim dev r') = false.
Proof.
  intros H Hr Hr' Hne. apply Z.eqb_neq. unfold twim. intros E.
  apply Hne, H; [assumption | assumption | lia].
Qed.

Lemma twim_same (dev : Z) (r : twim_reg) : (twim dev r =? twim dev r) = true.
Proof. apply Z.eqb_refl. Qed.

Lemma count_out_cons (a r v : Z) (l : list event) :
  count_out a (PipOut r v :: l) =
  ((if (r =? a)%Z then 1 else 0) + count_out a l)%nat.
Proof.
  unfold count_out. simpl. now destruct (r =? a).
Qed.

Lemma count_out_skip (a : Z) (e : event) (l : list event) :
  is_out_to a e = false -> count_out a (e :: l) = count_out a l.
Proof.
  intros H. unfold count_out. simpl. now rewrite H.
Qed.

Lemma count_out_selector_stores (a flags reg : Z) :
  count_out a (selector_stores flags reg) = 0%nat.
Proof.
  unfold selector_stores. now destruct (truthy _).
Qed.

Lemma count_lock_selector_stores (m : mutex) (flags reg : Z) :
  count_lock m (selector_stores flags reg) = 0%nat.
Proof.
  unfold selector_stores. now destruct (truthy _).
Qed.

Lemma count_out_unlock_events (a : Z) (r : option Z) :
  count_out a (unlock_events r) = 0%nat.
Proof. now destruct r. Qed.

Lemma count_lock_unlock_events (m : mutex) (r : option Z) :
  count_lock m (unlock_events r) = 0%nat.
Proof. destruct r; [destruct m |]; reflexivity. Qed.

Lemma count_out_nil (a : Z) : count_out a [] = 0%nat.
Proof. reflexivity. Qed.

(** Counting the writes to one register through a trace given event by
    event. *)
Ltac count_events :=
  repeat first
    [ rewrite count_out_nil
    | rewrite count_out_cons
    | rewrite count_out_skip by reflexivity
    | rewrite count_out_app
    | rewrite count_out_selector_stores
    | rewrite count_out_unlock_events
    | rewrite twim_same
    | rewrite twim_apart by (assumption || congruence || discriminate) ].

Lemma count_lock_nil (m : mutex) : count_lock m [] = 0%nat.
Proof. reflexivity. Qed.

Lemma count_lock_cons (m : mutex) (e : event) (l : list event) :
  count_lock m (e :: l) =
  ((if is_lock_of m e then 1 else 0) + count_lock m l)%nat.
Proof.
  unfold count_lock. simpl. now destruct (is_lock_of m e).
Qed.

Ltac count_locks :=
  repeat first
    [ rewrite count_lock_nil
    | rewrite count_lock_cons
    | rewrite count_lock_app
    | rewrite count_lock_selector_stores
    | rewrite count_lock_unlock_events ];
  cbn [is_lock_of].

(** The start of [finish] writes the interrupt mask and perhaps the stop
    event, and locks [busy[dev]] once. *)
Lemma count_out_wait_events (dev flag s : Z) (r : twim_reg) :
  indices_apart -> r <> EVENTS_ERROR ->
  r <> INTENSET_INDEX -> r <> EVENTS_STOPPED_INDEX ->
  count_out (twim dev r) (wait_events dev flag s) = 0%nat.
Proof.
  intros H Hr H1 H2. unfold wait_events, stop_ack.
  destruct (truthy s); cbn [app]; count_events; reflexivity.
Qed.

Lemma count_lock_wait_events (dev flag s : Z) :
  count_lock (busy dev) (wait_events dev flag s) = 1%nat /\
  count_lock buffer_lock (wait_events dev flag s) = 0%nat.
Proof.
  unfold wait_events, stop_ack, count_lock.
  destruct (truthy s); simpl; rewrite Z.eqb_refl; split; reflexivity.
Qed.

(** C5.  A register-prefixed write that passes its guards, for a payload
    that is not [tx_buf] itself: under [buffer_lock], taken first and given
    back last (when the write returns), the selector is stored at the start
    of [tx_buf], the [len] payload bytes are copied right behind it, and one
    write of [reg_addr_len + len] bytes from [tx_buf] is programmed and
    started; the start-transmit task is written once. *)
Theorem write_regs_one_staged_write
    (fuel : nat) (dev addr reg data len flags : Z) (w : world) :
  0 <= reg < 65536 ->
  dev < I2C_NUMOF -> data <> 0 -> 0 < len < 253 ->
  Z.land flags I2C_NOSTART = 0 -> Z.land flags I2C_ADDR10 = 0 ->
  tx_buf <> 0 ->
  data + len <= tx_buf \/ tx_buf + 256 <= data ->
  let o := i2c_write_regs fuel dev addr reg data len flags w in
  let w' := world_of o in
  let k := reg_addr_len flags in
  exists tl,
    let evs :=
      MutexLock buffer_lock
      :: selector_stores flags reg
      ++ Memcpy (tx_buf + k) data len
         :: [PipOut (twim dev ADDRESS_INDEX) addr;
             PipOut (twim dev TXD_PTR_INDEX) tx_buf;
             PipOut (twim dev TXD_MAXCNT_INDEX) (k + len);
             PipOut (twim dev SHORTS_INDEX) (tx_shorts flags);
             PipOut (twim dev TASKS_STARTTX_INDEX) 1]
      ++ wait_events dev (tx_flag flags) (hw w (cursor w))
      ++ tl
      ++ unlock_events (retval o) in
    trace w' = trace w ++ evs /\
    Forall (finish_event dev) tl /\
    load (mem w') tx_buf (Z.to_nat (k + len)) =
      selector flags reg ++ load (mem w) data (Z.to_nat len) /\
    (retval o <> None -> buffer_locked w' = false) /\
    count_lock buffer_lock evs = 1%nat /\
    (indices_apart -> count_out (twim dev TASKS_STARTTX_INDEX) evs = 1%nat).
Proof.
  intros Hr Hd Hp Hl Hs Ha Hb Hdis o w' k.
  destruct (write_regs_facts fuel dev addr reg data len flags w)
    as (Ht & Hv & Hm & Hlk); try assumption.
  destruct (finish_trace_shape fuel dev (tx_flag flags) (hw w) (cursor w))
    as (tl & Hf & Htl).
  exists tl. cbv zeta. fold o in Ht, Hv, Hm, Hlk. fold w' in Ht, Hm, Hlk.
  repeat split.
  - rewrite Ht, Hf. unfold tx_setup. fold k.
    repeat (rewrite <- app_assoc; simpl). reflexivity.
  - exact Htl.
  - rewrite Hm. apply load_staged_regs; [assumption | lia | assumption].
  - exact Hlk.
  - count_locks.
    rewrite (proj2 (count_lock_wait_events dev (tx_flag flags) (hw w (cursor w)))).
    rewrite (finish_events_no_lock dev buffer_lock tl Htl). reflexivity.
  - intros Hapart. count_events.
    rewrite count_out_wait_events by (assumption || discriminate).
    rewrite (finish_events_no_out dev _ tl); [reflexivity | | | | exact Htl];
      apply Z.eqb_neq, twim_apart; (assumption || discriminate).
Qed.

(** C7.  A register-prefixed read that passes its guards programs the
    address, the selector transmit (count 1 or 2, from [&reg]) and the
    [len]-byte receive, arms exactly the two short-circuits last-transmitted
    to start-receive and last-received to stop, writes the start-transmit
    task once, unmasks stop and error, blocks once on [busy[dev]], and goes
    straight to the classification: it returns for every fuel, so it never
    enters the busy-wait.  No other register is written before the wait, and
    the last-transmitted-to-stop short-circuit is not armed. *)
Theorem read_regs_one_transaction
    (fuel : nat) (dev addr reg data len flags : Z) (w : world) :
  dev < I2C_NUMOF -> data <> 0 -> 0 < len < 256 ->
  Z.land flags I2C_NOSTART = 0 -> Z.land flags I2C_ADDR10 = 0 ->
  Z.land flags I2C_NOSTOP = 0 ->
  Z.land TWIM_INTEN_STOPPED_Msk TWIM_INTEN_LASTTX_Msk = 0 ->
  let o := i2c_read_regs fuel dev addr reg data len flags w in
  let shorts := Z.lor TWIM_SHORTS_LASTTX_STARTRX_Msk TWIM_SHORTS_LASTRX_STOP_Msk in
  let evs :=
    [PipOut (twim dev ADDRESS_INDEX) addr;
     PipOut (twim dev TXD_MAXCNT_INDEX) (reg_addr_len flags);
     PipOut (twim dev TXD_PTR_INDEX) addr_of_reg;
     PipOut (twim dev RXD_PTR_INDEX) data;
     PipOut (twim dev RXD_MAXCNT_INDEX) len;
     PipOut (twim dev SHORTS_INDEX) shorts;
     PipOut (twim dev TASKS_STARTTX_INDEX) 1;
     PipOut (twim dev INTENSET_INDEX)
            (Z.lor TWIM_INTEN_STOPPED_Msk TWIM_INTEN_ERROR_Msk);
     MutexLock (busy dev);
     PipIn (twim dev EVENTS_STOPPED_INDEX) (hw w (cursor w))]
    ++ stop_ack dev (hw w (cursor w)) in
  o = classify dev
        (World (reg_in_memory (mem w) flags reg) (buffer_locked w) (hw w)
               (S (cursor w)) (trace w ++ evs)) /\
  (exists r tl,
     retval o = Some r /\
     trace (world_of o) = trace w ++ evs ++ tl /\
     Forall (finish_event dev) tl /\
     count_lock (busy dev) (evs ++ tl) = 1%nat /\
     (indices_apart ->
      count_out (twim dev TASKS_STARTTX_INDEX) (evs ++ tl) = 1%nat /\
      count_out (twim dev TASKS_STARTRX_INDEX) (evs ++ tl) = 0%nat /\
      count_out (twim dev SHORTS_INDEX) (evs ++ tl) = 1%nat)) /\
  (Z.land TWIM_SHORTS_LASTTX_STARTRX_Msk TWIM_SHORTS_LASTTX_STOP_Msk = 0 ->
   Z.land TWIM_SHORTS_LASTRX_STOP_Msk TWIM_SHORTS_LASTTX_STOP_Msk = 0 ->
   Z.land shorts TWIM_SHORTS_LASTTX_STOP_Msk = 0).
Proof.
  intros Hd Hp Hl Hs Ha Ht Hmask o shorts evs.
  assert (Ho : o = classify dev
             (World (reg_in_memory (mem w) flags reg) (buffer_locked w) (hw w)
                    (S (cursor w)) (trace w ++ evs))).
  { subst o. rewrite read_regs_accepted by assumption.
    rewrite (finish_stop fuel dev _ _ Hmask).
    unfold advance, wait_events, rxreg_setup. simpl. subst evs shorts.
    rewrite <- app_assoc. reflexivity. }
  split; [exact Ho | split].
  - set (w1 := World _ _ _ _ _) in Ho.
    pose proof (io_only_classify dev w1) as Hio.
    pose proof (emits_classify dev (hw w1) (cursor w1)) as Hem.
    destruct (classify_returns dev (blank (hw w1) (cursor w1))) as (r & w2 & Hc).
    rewrite Hc in Hio, Hem. simpl in Hem.
    exists r, (trace w2). rewrite Ho, Hio. simpl.
    assert (Hno : forall r, indices_apart -> r <> EVENTS_ERROR ->
              r <> EVENTS_STOPPED_INDEX -> r <> EVENTS_ERROR_INDEX ->
              r <> ERRORSRC_INDEX ->
              count_out (twim dev r) (trace w2) = 0%nat).
    { intros r0 Hap H1 H2 H3 H4.
      apply (finish_events_no_out dev _ (trace w2)); [| | | exact Hem];
        apply Z.eqb_neq, twim_apart; (assumption || discriminate || congruence). }
    repeat split.
    + now rewrite <- app_assoc.
    + exact Hem.
    + subst evs. unfold stop_ack.
      destruct (truthy (hw w (cursor w))); cbn [app]; count_locks;
        rewrite Z.eqb_refl;
        rewrite (finish_events_no_lock dev (busy dev) (trace w2) Hem);
        reflexivity.
    + subst evs. unfold stop_ack.
      destruct (truthy (hw w (cursor w))); cbn [app]; count_events;
        rewrite Hno by (assumption || discriminate); reflexivity.
    + subst evs. unfold stop_ack.
      destruct (truthy (hw w (cursor w))); cbn [app]; count_events;
        rewrite Hno by (assumption || discriminate); reflexivity.
    + subst evs. unfold stop_ack.
      destruct (truthy (hw w (cursor w))); cbn [app]; count_events;
        rewrite Hno by (assumption || discriminate); reflexivity.
  - intros H1 H2. subst shorts.
    rewrite Z.land_comm, Z.land_lor_distr_r.
    rewrite (Z.land_comm _ TWIM_SHORTS_LASTTX_STARTRX_Msk), H1.
    rewrite (Z.land_comm _ TWIM_SHORTS_LASTRX_STOP_Msk), H2. reflexivity.
Qed.

End OneTransaction.

(** * The plain write *)

Section PlainWrite.
Context {T : Target}.

Lemma first_done_none (fuel : nat) (h : nat -> Z) : forall (c k : nat),
  first_done fuel h c = None -> (k < fuel)%nat ->
  round_done h (3 * k + c) = false.
Proof.
  induction fuel as [| fuel IH]; intros c k H Hk; [lia |].
  cbn [first_done] in H.
  destruct (round_done h c) eqn:E; [discriminate |].
  destruct (first_done fuel h (3 + c)) eqn:E'; [discriminate |].
  destruct k as [| k]; [exact E |].
  replace (3 * S k + c)%nat with (3 * k + (3 + c))%nat by lia.
  apply IH; [exact E' | lia].
Qed.

(** The busy-wait ends within [fuel] turns exactly when one of the first
    [fuel] turns finds the counts equal or the error event set. *)
Lemma first_done_some_iff (fuel : nat) (h : nat -> Z) (c : nat) :
  first_done fuel h c <> None <->
  exists k, (k < fuel)%nat /\ round_done h (3 * k + c) = true.
Proof.
  split.
  - destruct (first_done fuel h c) as [k |] eqn:E; [| congruence].
    intros _. apply first_done_spec in E. exists k. tauto.
  - intros (k & Hk & Hd) E.
    rewrite (first_done_none fuel h c k E Hk) in Hd. discriminate.
Qed.

(** [classify] starts by reading the error event. *)
Lemma classify_view (dev : Z) (w : world) :
  exists r n tl,
    classify dev w =
    Returned r
      (advance w n (PipIn (twim dev EVENTS_ERROR_INDEX) (hw w (cursor w)) :: tl)) /\
    Forall (finish_event dev) tl.
Proof.
  set (e := hw w (cursor w)).
  set (x := hw w (S (cursor w))).
  set (y := hw w (S (S (cursor w)))).
  destruct (Z.eq_dec e 0) as [He | He].
  - exists 0, 1%nat, []. split; [| constructor].
    rewrite (classify_quiet dev w He). now rewrite He.
  - destruct (Z.eq_dec (Z.land x TWIM_ERRORSRC_ANACK_Msk) 0) as [Hx | Hx].
    + destruct (Z.eq_dec (Z.land y TWIM_ERRORSRC_DNACK_Msk) 0) as [Hy | Hy].
      * eexists _, _, _. split; [exact (classify_other dev w He Hx Hy) |].
        repeat (apply Forall_cons; [simpl; auto 6 |]); apply Forall_nil.
      * eexists _, _, _. split; [exact (classify_dnack dev w He Hx Hy) |].
        repeat (apply Forall_cons; [simpl; auto 6 |]); apply Forall_nil.
    + eexists _, _, _. split; [exact (classify_anack dev w He Hx) |].
      repeat (apply Forall_cons; [simpl; auto 6 |]); apply Forall_nil.
Qed.

(** With a stop requested, [finish] waits and classifies, whatever the
    fuel. *)
Lemma finish_stop_view (fuel : nat) (dev flag : Z) (h : nat -> Z) (c : nat) :
  Z.land flag TWIM_INTEN_LASTTX_Msk = 0 ->
  exists r tl,
    finish_result fuel dev flag h c = Some r /\
    finish_trace fuel dev flag h c =
      wait_events dev flag (h c)
      ++ PipIn (twim dev EVENTS_ERROR_INDEX) (h (S c)) :: tl /\
    Forall (finish_event dev) tl.
Proof.
  intros H. unfold finish_result, finish_trace.
  rewrite (finish_stop fuel dev flag _ H).
  destruct (classify_view dev
              (advance (blank h c) 1 (wait_events dev flag (hw (blank h c) (cursor (blank h c))))))
    as (r & n & tl & Hc & Htl).
  rewrite Hc. exists r, tl. simpl. auto.
Qed.

(** Without a stop, [finish] waits, then polls: it returns exactly when the
    busy-wait ends, after the turns that did not end it and the one that
    did, and then classifies. *)
Lemma finish_lasttx_view (fuel : nat) (dev flag : Z) (h : nat -> Z) (c : nat) :
  Z.land flag TWIM_INTEN_LASTTX_Msk <> 0 ->
  match first_done fuel h (S c) with
  | Some k =>
      exists r tl,
        finish_result fuel dev flag h c = Some r /\
        finish_trace fuel dev flag h c =
          wait_events dev flag (h c)
          ++ idle_rounds dev h (S c) k
          ++ round_events dev h (3 * k + S c)
          ++ PipIn (twim dev EVENTS_ERROR_INDEX)
                   (h (round_reads h (3 * k + S c) + 3 * k + S c)%nat) :: tl /\
        Forall (finish_event dev) tl
  | None =>
      finish_result fuel dev flag h c = None /\
      finish_trace fuel dev flag h c =
        wait_events dev flag (h c) ++ idle_rounds dev h (S c) fuel
  end.
Proof.
  intros H. unfold finish_result, finish_trace.
  rewrite (finish_lasttx fuel dev flag _ H). unfold bind.
  set (w1 := advance (blank h c) 1 _).
  destruct (first_done fuel h (S c)) as [k |] eqn:E.
  - rewrite (busy_wait_done fuel dev w1 k E).
    match goal with |- context [classify dev ?x] =>
      destruct (classify_view dev x) as (r & n & tl & Hc & Htl); rewrite Hc
    end.
    exists r, tl. subst w1. simpl. repeat split; [| exact Htl].
    repeat (rewrite <- app_assoc; simpl).
    rewrite Nat.add_assoc. reflexivity.
  - rewrite (busy_wait_spin fuel dev w1 E). subst w1. simpl.
    split; reflexivity.
Qed.

(** Both ways through the plain write, side by side: [p] is what the
    transmit pointer is set to. *)
Lemma write_bytes_facts (fuel : nat) (dev addr data len flags : Z) (w : world) :
  dev < I2C_NUMOF -> data <> 0 -> 0 < len < 256 ->
  Z.land flags I2C_NOSTART = 0 -> Z.land flags I2C_ADDR10 = 0 ->
  tx_buf <> 0 ->
  let o := i2c_write_bytes fuel dev addr data len flags w in
  let p := if in_ram data then data else tx_buf in
  let pre :=
    if in_ram data then []
    else [MutexLock buffer_lock; Memcpy tx_buf data len] in
  let post := if in_ram data then [] else unlock_events (retval o) in
  trace (world_of o) =
    trace w ++ pre ++ tx_setup dev addr p len flags
    ++ finish_trace fuel dev (tx_flag flags) (hw w) (cursor w) ++ post /\
  retval o = finish_result fuel dev (tx_flag flags) (hw w) (cursor w) /\
  load (mem (world_of o)) p (Z.to_nat len) = load (mem w) data (Z.to_nat len).
Proof.
  intros Hd Hp Hl Hs Ha Hb o p pre post. subst o p pre post.
  destruct (in_ram data) eqn:Hr.
  - destruct (write_bytes_direct_facts fuel dev addr data len flags w)
      as (Ht & Hv & Hm & _); try assumption.
    rewrite Ht, Hv, Hm. simpl. now rewrite app_nil_r.
  - destruct (write_bytes_staged_facts fuel dev addr data len flags w)
      as (Ht & Hv & Hm & _); try assumption.
    rewrite Ht, Hv, Hm. simpl. repeat split. apply load_copy.
Qed.

(** C6.  A plain write that passes its guards.  With suppress-stop clear it
    writes the last-transmitted-to-stop mask to the shorts register, starts,
    unmasks stop and error, blocks on [busy[dev]], and goes straight to the
    classification: it returns for every fuel.  With suppress-stop set it
    writes 0 to the shorts register, starts, unmasks last-transmitted and
    error, blocks on [busy[dev]], and then polls: each turn reads the
    transmitted amount and the programmed count, and the error event when
    they differ; it returns if and only if some turn finds the counts equal
    or the error event set, after the turns before that one, which found
    neither. *)
Theorem write_bytes_stop_or_poll
    (fuel : nat) (dev addr data len flags : Z) (w : world) :
  dev < I2C_NUMOF -> data <> 0 -> 0 < len < 256 ->
  Z.land flags I2C_NOSTART = 0 -> Z.land flags I2C_ADDR10 = 0 ->
  tx_buf <> 0 ->
  Z.land TWIM_INTEN_STOPPED_Msk TWIM_INTEN_LASTTX_Msk = 0 ->
  TWIM_INTEN_LASTTX_Msk <> 0 ->
  let o := i2c_write_bytes fuel dev addr data len flags w in
  let p := if in_ram data then data else tx_buf in
  let pre :=
    if in_ram data then []
    else [MutexLock buffer_lock; Memcpy tx_buf data len] in
  let post := if in_ram data then [] else unlock_events (retval o) in
  let h := hw w in
  let c := cursor w in
  let started shorts flag :=
    trace w ++ pre
    ++ [PipOut (twim dev ADDRESS_INDEX) addr;
        PipOut (twim dev TXD_PTR_INDEX) p;
        PipOut (twim dev TXD_MAXCNT_INDEX) len;
        PipOut (twim dev SHORTS_INDEX) shorts;
        PipOut (twim dev TASKS_STARTTX_INDEX) 1;
        PipOut (twim dev INTENSET_INDEX) (Z.lor flag TWIM_INTEN_ERROR_Msk);
        MutexLock (busy dev);
        PipIn (twim dev EVENTS_STOPPED_INDEX) (h c)]
    ++ stop_ack dev (h c) in
  (Z.land flags I2C_NOSTOP = 0 ->
   exists r tl,
     retval o = Some r /\
     trace (world_of o) =
       started TWIM_SHORTS_LASTTX_STOP_Msk TWIM_INTEN_STOPPED_Msk
       ++ PipIn (twim dev EVENTS_ERROR_INDEX) (h (S c)) :: tl ++ post /\
     Forall (finish_event dev) tl) /\
  (Z.land flags I2C_NOSTOP <> 0 ->
   (retval o <> None <->
    exists k, (k < fuel)%nat /\ round_done h (3 * k + S c) = true) /\
   (forall r, retval o = Some r ->
    exists k tl,
      (k < fuel)%nat /\
      round_done h (3 * k + S c) = true /\
      (forall j, (j < k)%nat -> round_done h (3 * j + S c) = false) /\
      trace (world_of o) =
        started 0 TWIM_INTEN_LASTTX_Msk
        ++ idle_rounds dev h (S c) k
        ++ round_events dev h (3 * k + S c)
        ++ PipIn (twim dev EVENTS_ERROR_INDEX)
                 (h (round_reads h (3 * k + S c) + 3 * k + S c)%nat)
           :: tl ++ post /\
      Forall (finish_event dev) tl) /\
   (retval o = None ->
    trace (world_of o) =
      started 0 TWIM_INTEN_LASTTX_Msk ++ idle_rounds dev h (S c) fuel)).
Proof.
  intros Hd Hp Hl Hs Ha Hb Hmask Hlast o p pre post h c started.
  destruct (write_bytes_facts fuel dev addr data len flags w)
    as (Ht & Hv & _); try assumption.
  fold o p pre post h c in Ht, Hv.
  split.
  - intros Hn. apply truthy_false in Hn.
    unfold tx_flag, tx_setup, tx_shorts in Ht, Hv. rewrite Hn in Ht, Hv.
    destruct (finish_stop_view fuel dev TWIM_INTEN_STOPPED_Msk h c Hmask)
      as (r & tl & Hr & Hf & Htl).
    exists r, tl. rewrite Hv, Ht, Hf. repeat split; [exact Hr | | exact Htl].
    subst started. unfold wait_events.
    repeat (rewrite <- app_assoc; simpl). reflexivity.
  - intros Hn. apply truthy_true in Hn.
    unfold tx_flag, tx_setup, tx_shorts in Ht, Hv. rewrite Hn in Ht, Hv.
    assert (Hl' : Z.land TWIM_INTEN_LASTTX_Msk TWIM_INTEN_LASTTX_Msk <> 0)
      by (now rewrite Z.land_diag).
    pose proof (finish_lasttx_view fuel dev TWIM_INTEN_LASTTX_Msk h c Hl') as Hview.
    pose proof (first_done_some_iff fuel h (S c)) as Hiff.
    destruct (first_done fuel h (S c)) as [k |] eqn:E.
    + destruct Hview as (r & tl & Hr & Hf & Htl).
      apply first_done_spec in E. destruct E as (Hk & Hdone & Hmin).
      rewrite Hv, Hr. repeat split.
      * intros _. apply Hiff. discriminate.
      * intros _. discriminate.
      * intros r0 _. exists k, tl. repeat split; try assumption.
        rewrite Ht, Hf. subst started. unfold wait_events.
        repeat (rewrite <- app_assoc; simpl). reflexivity.
      * discriminate.
    + destruct Hview as (Hr & Hf).
      rewrite Hv, Hr. repeat split.
      * intros Hne. congruence.
      * intros Hex. apply Hiff in Hex. congruence.
      * discriminate.
      * intros _. rewrite Ht, Hf.
        assert (Hpost : post = []).
        { subst post. rewrite Hv, Hr. now destruct (in_ram data). }
        rewrite Hpost, app_nil_r. subst started. unfold wait_events.
        repeat (rewrite <- app_assoc; simpl). reflexivity.
Qed.

(** C8.  A plain write that passes its guards sets the transmit pointer to
    the caller's buffer when that lies in RAM; otherwise it takes
    [buffer_lock], copies the [len] bytes to [tx_buf], sets the pointer
    there, and gives the lock back when the write returns.  Either way the
    [len] bytes found at the pointer are the caller's, the registers are
    programmed alike and handed to the same [finish], and the result is a
    function of the peripheral's answers alone: two such writes that see the
    same answers return the same. *)
Theorem write_bytes_direct_and_staged_agree
    (fuel : nat) (dev addr data len flags : Z) (w : world) :
  dev < I2C_NUMOF -> data <> 0 -> 0 < len < 256 ->
  Z.land flags I2C_NOSTART = 0 -> Z.land flags I2C_ADDR10 = 0 ->
  tx_buf <> 0 ->
  let o := i2c_write_bytes fuel dev addr data len flags w in
  let w' := world_of o in
  let p := if in_ram data then data else tx_buf in
  let pre :=
    if in_ram data then []
    else [MutexLock buffer_lock; Memcpy tx_buf data len] in
  let post := if in_ram data then [] else unlock_events (retval o) in
  trace w' =
    trace w ++ pre
    ++ [PipOut (twim dev ADDRESS_INDEX) addr;
        PipOut (twim dev TXD_PTR_INDEX) p;
        PipOut (twim dev TXD_MAXCNT_INDEX) len;
        PipOut (twim dev SHORTS_INDEX) (tx_shorts flags);
        PipOut (twim dev TASKS_STARTTX_INDEX) 1]
    ++ finish_trace fuel dev (tx_flag flags) (hw w) (cursor w) ++ post /\
  load (mem w') p (Z.to_nat len) = load (mem w) data (Z.to_nat len) /\
  retval o = finish_result fuel dev (tx_flag flags) (hw w) (cursor w) /\
  (in_ram data = true -> mem w' = mem w /\ buffer_locked w' = buffer_locked w) /\
  (in_ram data = false -> retval o <> None -> buffer_locked w' = false) /\
  (forall data2 w2,
     data2 <> 0 -> hw w2 = hw w -> cursor w2 = cursor w ->
     retval (i2c_write_bytes fuel dev addr data2 len flags w2) = retval o).
Proof.
  intros Hd Hp Hl Hs Ha Hb o w' p pre post.
  destruct (write_bytes_facts fuel dev addr data len flags w)
    as (Ht & Hv & Hm); try assumption.
  fold o p pre post in Ht, Hv, Hm. fold w' in Ht, Hm.
  split; [exact Ht | split; [exact Hm | split; [exact Hv | split; [| split]]]].
  - intros Hr.
    destruct (write_bytes_direct_facts fuel dev addr data len flags w)
      as (_ & _ & H1 & H2); try assumption.
    split; assumption.
  - intros Hr.
    destruct (write_bytes_staged_facts fuel dev addr data len flags w)
      as (_ & _ & _ & H); assumption.
  - intros data2 w2 Hp2 Hh Hc.
    destruct (write_bytes_facts fuel dev addr data2 len flags w2)
      as (_ & Hv2 & _); try assumption.
    rewrite Hv2, Hv, Hh, Hc. reflexivity.
Qed.

End PlainWrite.

(** * The scenarios on the board *)

Lemma dwm1001_indices_apart : indices_apart (T:=dwm1001).
Proof.
  intros r r' Hr Hr' E.
  destruct r, r'; try reflexivity; try congruence; vm_compute in E; discriminate.
Qed.

(** [write_with_register(0, 0x50, 0x10, [0xAA,0xBB], 2, NONE)]: [tx_buf]
    holds [0x10, 0xAA, 0xBB], and one write of 3 bytes goes to address
    [0x50]. *)
Lemma write_regs_one_staged_write_witness :
  let o := i2c_write_regs 0 0 0x50 0x10 0x20001000 2 0 w_stop in
  load (mem (world_of o)) tx_buf 3 = [0x10; 0xAA; 0xBB] /\
  count_out (twim 0 TASKS_STARTTX_INDEX) (trace (world_of o)) = 1%nat /\
  count_lock buffer_lock (trace (world_of o)) = 1%nat /\
  trace (world_of o) =
    [MutexLock buffer_lock;
     Store tx_buf 0x10;
     Memcpy (tx_buf + 1) 0x20001000 2;
     PipOut (twim 0 ADDRESS_INDEX) 0x50;
     PipOut (twim 0 TXD_PTR_INDEX) tx_buf;
     PipOut (twim 0 TXD_MAXCNT_INDEX) 3;
     PipOut (twim 0 SHORTS_INDEX) TWIM_SHORTS_LASTTX_STOP_Msk;
     PipOut (twim 0 TASKS_STARTTX_INDEX) 1;
     PipOut (twim 0 INTENSET_INDEX) (Z.lor TWIM_INTEN_STOPPED_Msk TWIM_INTEN_ERROR_Msk);
     MutexLock (busy 0);
     PipIn (twim 0 EVENTS_STOPPED_INDEX) 1;
     PipOut (twim 0 EVENTS_STOPPED_INDEX) 0;
     PipIn (twim 0 EVENTS_ERROR_INDEX) 0;
     MutexUnlock buffer_lock].
Proof.
  pose proof (write_regs_one_staged_write (T:=dwm1001)
                0 0 0x50 0x10 0x20001000 2 0 w_stop) as H.
  specialize (H ltac:(lia) ltac:(vm_compute; reflexivity) ltac:(discriminate)
                ltac:(lia) ltac:(vm_compute; reflexivity)
                ltac:(vm_compute; reflexivity) ltac:(vm_compute; discriminate)
                ltac:(right; vm_compute; discriminate)).
  cbv zeta in H. destruct H as (tl & Ht & _ & Hload & _ & Hlk & Hst).
  cbv zeta. split; [| split; [| split]].
  - vm_compute in Hload |- *. exact Hload.
  - rewrite Ht. exact (Hst dwm1001_indices_apart).
  - rewrite Ht. exact Hlk.
  - vm_compute. reflexivity.
Defined.

(** [read_with_register(0, 0x50, 0x1234, buf, 4, REG16)]: one start, one
    wait, the two short-circuits, no write to the shorts register
    afterwards. *)
Lemma read_regs_one_transaction_witness :
  let o := i2c_read_regs 0 0 0x50 0x1234 0x20001000 4 I2C_REG16 w_stop in
  retval o = Some 0 /\
  trace (world_of o) =
    [PipOut (twim 0 ADDRESS_INDEX) 0x50;
     PipOut (twim 0 TXD_MAXCNT_INDEX) 2;
     PipOut (twim 0 TXD_PTR_INDEX) addr_of_reg;
     PipOut (twim 0 RXD_PTR_INDEX) 0x20001000;
     PipOut (twim 0 RXD_MAXCNT_INDEX) 4;
     PipOut (twim 0 SHORTS_INDEX)
            (Z.lor TWIM_SHORTS_LASTTX_STARTRX_Msk TWIM_SHORTS_LASTRX_STOP_Msk);
     PipOut (twim 0 TASKS_STARTTX_INDEX) 1;
     PipOut (twim 0 INTENSET_INDEX) (Z.lor TWIM_INTEN_STOPPED_Msk TWIM_INTEN_ERROR_Msk);
     MutexLock (busy 0);
     PipIn (twim 0 EVENTS_STOPPED_INDEX) 1;
     PipOut (twim 0 EVENTS_STOPPED_INDEX) 0;
     PipIn (twim 0 EVENTS_ERROR_INDEX) 0].
Proof.
  pose proof (read_regs_one_transaction (T:=dwm1001)
                0 0 0x50 0x1234 0x20001000 4 I2C_REG16 w_stop) as H.
  specialize (H ltac:(vm_compute; reflexivity) ltac:(discriminate) ltac:(lia)
                ltac:(vm_compute; reflexivity) ltac:(vm_compute; reflexivity)
                ltac:(vm_compute; reflexivity) ltac:(vm_compute; reflexivity)).
  cbv zeta in H. destruct H as (H & _).
  cbv zeta. rewrite H. vm_compute. split; reflexivity.
Defined.

(** Two bytes from RAM: with a stop; and without, on a peripheral whose
    amount register already shows both bytes. *)
Lemma write_bytes_stop_or_poll_witness :
  (exists r, retval (i2c_write_bytes 0 0 0x50 0x20001000 2 0 w_stop) = Some r) /\
  retval (i2c_write_bytes 1 0 0x50 0x20001000 2 I2C_NOSTOP w_sent2) <> None.
Proof.
  split.
  - pose proof (write_bytes_stop_or_poll (T:=dwm1001)
                  0 0 0x50 0x20001000 2 0 w_stop) as H.
    specialize (H ltac:(vm_compute; reflexivity) ltac:(discriminate) ltac:(lia)
                  ltac:(vm_compute; reflexivity) ltac:(vm_compute; reflexivity)
                  ltac:(vm_compute; discriminate) ltac:(vm_compute; reflexivity)
                  ltac:(vm_compute; discriminate)).
    cbv zeta in H. destruct H as (H & _).
    destruct (H ltac:(vm_compute; reflexivity)) as (r & _ & Hr & _).
    exists r. exact Hr.
  - pose proof (write_bytes_stop_or_poll (T:=dwm1001)
                  1 0 0x50 0x20001000 2 I2C_NOSTOP w_sent2) as H.
    specialize (H ltac:(vm_compute; reflexivity) ltac:(discriminate) ltac:(lia)
                  ltac:(vm_compute; reflexivity) ltac:(vm_compute; reflexivity)
                  ltac:(vm_compute; discriminate) ltac:(vm_compute; reflexivity)
                  ltac:(vm_compute; discriminate)).
    cbv zeta in H. destruct H as (_ & H).
    destruct (H ltac:(vm_compute; discriminate)) as (Hiff & _).
    apply Hiff. exists 0%nat. split; [lia | vm_compute; reflexivity].
Defined.

(** The same two bytes written from flash and from RAM. *)
Lemma write_bytes_direct_and_staged_agree_witness :
  let o := i2c_write_bytes 0 0 0x50 0x1000 2 0 w_flash in
  load (mem (world_of o)) tx_buf 2 = [0xC1; 0xC2] /\
  retval (i2c_write_bytes 0 0 0x50 0x20001000 2 0 w_ram) = retval o.
Proof.
  pose proof (write_bytes_direct_and_staged_agree (T:=dwm1001)
                0 0 0x50 0x1000 2 0 w_flash) as H.
  specialize (H ltac:(vm_compute; reflexivity) ltac:(discriminate) ltac:(lia)
                ltac:(vm_compute; reflexivity) ltac:(vm_compute; reflexivity)
                ltac:(vm_compute; discriminate)).
  cbv zeta in H. destruct H as (_ & Hload & _ & _ & _ & Hsame).
  cbv zeta. split.
  - vm_compute in Hload |- *. exact Hload.
  - apply Hsame; [discriminate | reflexivity | reflexivity].
Defined.

(** * What the driver never does *)

Section Stays.
Variable R : world -> world -> Prop.
Hypothesis R_refl : forall w, R w w.
Hypothesis R_trans : forall a b c, R a b -> R b c -> R a c.

Lemma stays_ret {A} (a : A) : stays R (ret a).
Proof. intros w. apply R_refl. Qed.

Lemma stays_bind {A B} (m : M A) (k : A -> M B) :
  stays R m -> (forall a, stays R (k a)) -> stays R (bind m k).
Proof.
  intros Hm Hk w. unfold bind. specialize (Hm w).
  destruct (m w) as [a w1 | w1 | w1]; simpl in *; try exact Hm.
  eapply R_trans; [exact Hm | apply Hk].
Qed.

(** What follows an [assert] runs only when the condition holds. *)
Lemma stays_assert {B} (c : bool) (k : unit -> M B) :
  (c = true -> stays R (k tt)) -> stays R (bind (assert c) k).
Proof.
  intros Hk w. unfold bind, assert. destruct c; simpl.
  - apply Hk. reflexivity.
  - apply R_refl.
Qed.

Lemma stays_if {A} (c : bool) (m1 m2 : M A) :
  (c = true -> stays R m1) -> (c = false -> stays R m2) ->
  stays R (if c then m1 else m2).
Proof. destruct c; auto. Qed.

(** The continuation may rely on what the first part returns. *)
Lemma stays_bind_yields {A B} (Q : A -> Prop) (m : M A) (k : A -> M B) :
  stays R m -> yields Q m -> (forall a, Q a -> stays R (k a)) ->
  stays R (bind m k).
Proof.
  intros Hm Hq Hk w. unfold bind. specialize (Hm w).
  destruct (m w) as [a w1 | w1 | w1] eqn:E; simpl in *; try exact Hm.
  eapply R_trans; [exact Hm | apply Hk]. exact (Hq w a w1 E).
Qed.

End Stays.

Lemma yields_ret {A} (Q : A -> Prop) (a : A) : Q a -> yields Q (ret a).
Proof. intros H w a' w' [= <- _]. exact H. Qed.

Lemma yields_bind {A B} (Q' : A -> Prop) (Q : B -> Prop) (m : M A) (k : A -> M B) :
  yields Q' m -> (forall a, Q' a -> yields Q (k a)) -> yields Q (bind m k).
Proof.
  intros Hm Hk w b w' E. unfold bind in E.
  destruct (m w) as [a w1 | w1 | w1] eqn:Em; try discriminate.
  exact (Hk a (Hm w a w1 Em) w1 b w' E).
Qed.

Lemma yields_any {A} (m : M A) : yields (fun _ => True) m.
Proof. intros w a w' _. exact I. Qed.

Lemma yields_if {A} (Q : A -> Prop) (c : bool) (m1 m2 : M A) :
  yields Q m1 -> yields Q m2 -> yields Q (if c then m1 else m2).
Proof. now destruct c. Qed.

Section Confined.
Variable P : event -> Prop.
Variable A : Z -> Prop.

Lemma confined_refl (w : world) : confined P A w w.
Proof.
  repeat split; auto. exists []. split; [now rewrite app_nil_r | constructor].
Qed.

Lemma confined_trans (a b c : world) :
  confined P A a b -> confined P A b c -> confined P A a c.
Proof.
  intros ((e1 & Ht1 & Hf1) & Hm1 & Hh1 & Hc1) ((e2 & Ht2 & Hf2) & Hm2 & Hh2 & Hc2).
  repeat split.
  - exists (e1 ++ e2). split.
    + now rewrite Ht2, Ht1, app_assoc.
    + apply Forall_app. now split.
  - intros x Hx. now rewrite Hm2, Hm1.
  - congruence.
  - lia.
Qed.

Lemma confined_event (e : event) (w : world) (b : bool) :
  P e ->
  confined P A w (World (mem w) b (hw w) (cursor w) (trace w ++ [e])).
Proof.
  intros He. repeat split; simpl; auto.
  exists [e]. split; [reflexivity | repeat constructor; exact He].
Qed.

Lemma stays_Pip_out (r v : Z) :
  P (PipOut r v) -> stays (confined P A) (Pip_out r v).
Proof. intros H w. now apply confined_event. Qed.

Lemma stays_Pip_in (r : Z) :
  (forall v, P (PipIn r v)) -> stays (confined P A) (Pip_in r).
Proof.
  intros H w. simpl. repeat split; simpl; auto.
  exists [PipIn r (hw w (cursor w))]. split; [reflexivity |].
  repeat constructor. apply H.
Qed.

Lemma stays_mutex_lock (m : mutex) :
  P (MutexLock m) -> stays (confined P A) (mutex_lock m).
Proof. intros H w. now apply confined_event. Qed.

Lemma stays_mutex_unlock (m : mutex) :
  P (MutexUnlock m) -> stays (confined P A) (mutex_unlock m).
Proof. intros H w. now apply confined_event. Qed.

Lemma stays_store8 (a v : Z) :
  P (Store a (uint8_t v)) -> A a -> stays (confined P A) (store8 a v).
Proof.
  intros He Ha w. simpl. repeat split; simpl; auto.
  - exists [Store a (uint8_t v)]. split; [reflexivity | repeat constructor; exact He].
  - intros x Hx. unfold poke. destruct (Z.eqb_spec x a); [subst; contradiction | reflexivity].
Qed.

Lemma stays_memcpy (dst src n : Z) :
  P (Memcpy dst src n) -> (forall x, dst <= x < dst + n -> A x) ->
  stays (confined P A) (memcpy dst src n).
Proof.
  intros He Ha w. simpl. repeat split; simpl; auto.
  - exists [Memcpy dst src n]. split; [reflexivity | repeat constructor; exact He].
  - intros x Hx. unfold copy.
    destruct (Z.leb_spec dst x); [| reflexivity].
    destruct (Z.ltb_spec x (dst + n)); [| reflexivity].
    exfalso. apply Hx, Ha. lia.
Qed.

Lemma stays_store16_local (a v : Z) :
  A a -> A (a + 1) -> stays (confined P A) (store16_local a v).
Proof.
  intros Ha Ha1 w. simpl. repeat split; simpl; auto.
  - exists []. split; [now rewrite app_nil_r | constructor].
  - intros x Hx. unfold poke16, poke.
    destruct (Z.eqb_spec x a); [subst; contradiction |].
    destruct (Z.eqb_spec x (a + 1)); [subst; contradiction | reflexivity].
Qed.

End Confined.

(** Side conditions: one of the alternatives of [written], [read_from] or
    [driver_event], each closed by reflexivity or arithmetic. *)
Ltac pick :=
  first [ reflexivity | assumption | lia
        | (split; pick) | (left; pick) | (right; pick) ].

Section Footprints.
Context {T : Target}.
Variable A : Z -> Prop.

Lemma ret_confined {B} (P : event -> Prop) (b : B) : stays (confined P A) (ret b).
Proof. apply stays_ret, confined_refl. Qed.

Lemma bind_confined {B C} (P : event -> Prop) (m : M B) (k : B -> M C) :
  stays (confined P A) m -> (forall b, stays (confined P A) (k b)) ->
  stays (confined P A) (bind m k).
Proof. apply stays_bind, confined_trans. Qed.

Lemma assert_confined {B} (P : event -> Prop) (c : bool) (k : unit -> M B) :
  (c = true -> stays (confined P A) (k tt)) ->
  stays (confined P A) (bind (assert c) k).
Proof. apply stays_assert, confined_refl. Qed.

Lemma bind_yields_confined {B C} (P : event -> Prop) (Q : B -> Prop)
    (m : M B) (k : B -> M C) :
  stays (confined P A) m -> yields Q m ->
  (forall b, Q b -> stays (confined P A) (k b)) ->
  stays (confined P A) (bind m k).
Proof. apply stays_bind_yields, confined_trans. Qed.

Lemma busy_wait_confined (b : bool) (fuel : nat) (dev : Z) :
  stays (confined (driver_event b dev) A) (busy_wait fuel dev).
Proof.
  induction fuel as [| fuel IH]; simpl.
  - intros w. apply confined_refl.
  - apply bind_confined; [apply stays_Pip_in; intros v; simpl; unfold read_from; pick |].
    intros amount.
    apply bind_confined; [apply stays_Pip_in; intros v; simpl; unfold read_from; pick |].
    intros maxcnt.
    apply stays_if; intros _; [| apply ret_confined].
    apply bind_confined; [apply stays_Pip_in; intros v; simpl; unfold read_from; pick |].
    intros err.
    apply stays_if; intros _; [exact IH | apply ret_confined].
Qed.

(** Walks down a computation built from the driver's primitives. *)
Ltac walk :=
  repeat first
    [ apply ret_confined
    | apply busy_wait_confined
    | apply bind_confined; [| intros ?]
    | apply stays_if; intros ?
    | apply stays_Pip_out; simpl; unfold written
    | apply stays_Pip_in; intros ?; simpl; unfold read_from
    | apply stays_mutex_lock; simpl
    | apply stays_mutex_unlock; simpl ].

Lemma classify_confined (b : bool) (dev : Z) :
  stays (confined (driver_event b dev) A) (classify dev).
Proof.
  unfold classify. walk; pick.
Qed.

Lemma finish_confined (b : bool) (fuel : nat) (dev flag : Z) :
  is_success_flag flag ->
  stays (confined (driver_event b dev) A) (finish fuel dev flag).
Proof.
  intros Hflag. unfold finish.
  apply bind_confined; [| intros _; apply classify_confined].
  unfold await.
  apply bind_confined.
  { apply stays_Pip_out. simpl. unfold written.
    do 6 right. left. split; [reflexivity |].
    destruct Hflag as [-> | ->]; auto. }
  intros _. walk; pick.
Qed.

Lemma guard_true (dev data len lim : Z) :
  (dev <? I2C_NUMOF) && truthy data && (0 <? len) && (len <? lim) = true ->
  dev < I2C_NUMOF /\ data <> 0 /\ 0 < len < lim.
Proof.
  rewrite !andb_true_iff, !Z.ltb_lt, truthy_true. tauto.
Qed.

Lemma direct_confined (b : bool) (fuel : nat) (dev addr data len flags : Z) :
  stays (confined (driver_event b dev) A)
        (direct_i2c_write_bytes fuel dev addr data len flags).
Proof.
  unfold direct_i2c_write_bytes. apply assert_confined. intros Hg.
  apply guard_true in Hg. destruct Hg as (_ & _ & Hl).
  assert (Hu : 0 < uint8_t len < 256)
    by (unfold uint8_t; rewrite Z.mod_small; lia).
  apply stays_if; intros _; [apply ret_confined |].
  do 3 (apply bind_confined; [apply stays_Pip_out; simpl; unfold written; pick | intros _]).
  apply (bind_yields_confined _ is_success_flag).
  - walk; pick.
  - apply yields_if;
      (eapply yields_bind; [apply yields_any | intros _ _; apply yields_ret]);
      [left | right]; reflexivity.
  - intros flag Hflag.
    apply bind_confined; [apply stays_Pip_out; simpl; unfold written; pick | intros _].
    now apply finish_confined.
Qed.

Lemma read_bytes_confined (fuel : nat) (dev addr data len flags : Z) :
  stays (confined (driver_event false dev) A)
        (i2c_read_bytes fuel dev addr data len flags).
Proof.
  unfold i2c_read_bytes. apply assert_confined. intros Hg.
  apply guard_true in Hg. destruct Hg as (_ & _ & Hl).
  assert (Hu : 0 < uint8_t len < 256)
    by (unfold uint8_t; rewrite Z.mod_small; lia).
  apply stays_if; intros _; [apply ret_confined |].
  do 5 (apply bind_confined; [apply stays_Pip_out; simpl; unfold written; pick | intros _]).
  apply finish_confined. now left.
Qed.

Lemma read_regs_confined (fuel : nat) (dev addr reg data len flags : Z) :
  A addr_of_reg -> A (addr_of_reg + 1) ->
  stays (confined (driver_event false dev) A)
        (i2c_read_regs fuel dev addr reg data len flags).
Proof.
  intros Ha Ha1.
  unfold i2c_read_regs. apply assert_confined. intros Hg.
  apply guard_true in Hg. destruct Hg as (_ & _ & Hl).
  assert (Hu : 0 < uint8_t len < 256)
    by (unfold uint8_t; rewrite Z.mod_small; lia).
  apply stays_if; intros _; [apply ret_confined |].
  apply bind_confined; [now apply stays_store16_local | intros _].
  apply bind_confined; [apply stays_Pip_out; simpl; unfold written; pick | intros _].
  apply bind_confined.
  { apply stays_if; intros _.
    - apply bind_confined; [now apply stays_store16_local | intros _].
      apply stays_Pip_out; simpl; unfold written; pick.
    - apply stays_Pip_out; simpl; unfold written; pick. }
  intros _.
  do 5 (apply bind_confined; [apply stays_Pip_out; simpl; unfold written; pick | intros _]).
  apply finish_confined. now left.
Qed.

Hypothesis A_tx_buf : forall a, in_tx_buf a -> A a.

Lemma uint8_range (v : Z) : 0 <= uint8_t v < 256.
Proof. unfold uint8_t. apply Z.mod_pos_bound. lia. Qed.

Lemma write_regs_confined (fuel : nat) (dev addr reg data len flags : Z) :
  stays (confined (driver_event true dev) A)
        (i2c_write_regs fuel dev addr reg data len flags).
Proof.
  unfold i2c_write_regs. apply assert_confined. intros Hg.
  apply guard_true in Hg. destruct Hg as (_ & _ & Hl).
  apply stays_if; intros _; [apply ret_confined |].
  apply bind_confined; [apply stays_mutex_lock; simpl; pick | intros _].
  apply (bind_yields_confined _ (fun n => n = 1 \/ n = 2)).
  - pose proof (uint8_range (Z.shiftr reg 8)).
    pose proof (uint8_range (Z.land reg 255)).
    pose proof (uint8_range reg).
    apply stays_if; intros _;
      repeat (apply bind_confined; [| intros _]); try apply ret_confined;
      (apply stays_store8; [simpl; repeat split; lia
                           | apply A_tx_buf; unfold in_tx_buf; lia]).
  - apply yields_if;
      repeat (eapply yields_bind; [apply yields_any | intros _ _]);
      apply yields_ret; auto.
  - intros n Hn.
    apply bind_confined.
    { apply stays_memcpy.
      - simpl. repeat split; lia.
      - intros x Hx. apply A_tx_buf. unfold in_tx_buf. lia. }
    intros _.
    apply bind_confined; [apply direct_confined | intros r].
    apply bind_confined; [apply stays_mutex_unlock; simpl; pick | intros _].
    apply ret_confined.
Qed.

Lemma write_bytes_staged_confined (fuel : nat) (dev addr data len flags : Z) :
  stays (confined (driver_event true dev) A)
        (assert ((0 <? len) && (len <? 256)) ;;
         mutex_lock buffer_lock ;;
         memcpy tx_buf data len ;;
         result <- direct_i2c_write_bytes fuel dev addr tx_buf len flags ;;
         mutex_unlock buffer_lock ;;
         ret result).
Proof.
  apply assert_confined. intros Hg.
  apply andb_true_iff in Hg. rewrite !Z.ltb_lt in Hg.
  apply bind_confined; [apply stays_mutex_lock; simpl; pick | intros _].
  apply bind_confined.
  { apply stays_memcpy.
    - simpl. repeat split; lia.
    - intros x Hx. apply A_tx_buf. unfold in_tx_buf. lia. }
  intros _.
  apply bind_confined; [apply direct_confined | intros r].
  apply bind_confined; [apply stays_mutex_unlock; simpl; pick | intros _].
  apply ret_confined.
Qed.

Lemma write_bytes_confined (fuel : nat) (dev addr data len flags : Z) :
  stays (confined (driver_event (negb (in_ram data)) dev) A)
        (i2c_write_bytes fuel dev addr data len flags).
Proof.
  unfold i2c_write_bytes. destruct (in_ram data); simpl.
  - apply direct_confined.
  - apply write_bytes_staged_confined.
Qed.

End Footprints.

(** X1.  Whatever the arguments, the answers of the peripheral and the
    outcome, a transfer operation on bus [dev] adds to the trace only events
    of that bus: writes to the TWIM registers the driver programs, with the
    values it can give them (counts between 1 and 255, the four short-circuit
    words, the two interrupt masks, 1 to the start tasks, 0 to the events, the
    two error-source bits), reads of the six registers [finish] looks at, and
    the lock of [busy[dev]].  The two reads and a plain write from RAM never
    touch [tx_buf] or its lock; only [i2c_write_regs] and a plain write from
    outside RAM lock, fill and unlock [tx_buf]. *)
Theorem transfers_stay_on_their_bus {T : Target}
    (fuel : nat) (dev addr reg data len flags : Z) (w : world) :
  (exists evs,
     trace (world_of (i2c_read_bytes fuel dev addr data len flags w)) =
       trace w ++ evs /\ Forall (driver_event false dev) evs) /\
  (exists evs,
     trace (world_of (i2c_read_regs fuel dev addr reg data len flags w)) =
       trace w ++ evs /\ Forall (driver_event false dev) evs) /\
  (exists evs,
     trace (world_of (i2c_write_regs fuel dev addr reg data len flags w)) =
       trace w ++ evs /\ Forall (driver_event true dev) evs) /\
  (exists evs,
     trace (world_of (i2c_write_bytes fuel dev addr data len flags w)) =
       trace w ++ evs /\ Forall (driver_event (negb (in_ram data)) dev) evs).
Proof.
  split; [| split; [| split]].
  - exact (proj1 (read_bytes_confined (fun _ => True) fuel dev addr data len flags w)).
  - exact (proj1 (read_regs_confined (fun _ => True) fuel dev addr reg data len
                    flags I I w)).
  - exact (proj1 (write_regs_confined in_tx_buf (fun _ H => H)
                    fuel dev addr reg data len flags w)).
  - exact (proj1 (write_bytes_confined in_tx_buf (fun _ H => H)
                    fuel dev addr data len flags w)).
Qed.

(** X2.  The two writes change no memory outside the 256 bytes of [tx_buf],
    whatever the arguments and the outcome: the selector goes to its first two
    bytes, and the length asserted by [i2c_write_regs] (below 253) and by
    [i2c_write_bytes] (below 256) keeps the copy inside the buffer. *)
Theorem writes_change_only_tx_buf {T : Target}
    (fuel : nat) (dev addr reg data len flags : Z) (w : world) (a : Z) :
  ~ in_tx_buf a ->
  mem (world_of (i2c_write_regs fuel dev addr reg data len flags w)) a = mem w a /\
  mem (world_of (i2c_write_bytes fuel dev addr data len flags w)) a = mem w a.
Proof.
  intros Ha. split.
  - exact (proj1 (proj2 (write_regs_confined in_tx_buf (fun _ H => H)
                           fuel dev addr reg data len flags w)) a Ha).
  - exact (proj1 (proj2 (write_bytes_confined in_tx_buf (fun _ H => H)
                           fuel dev addr data len flags w)) a Ha).
Qed.

Lemma writes_change_only_tx_buf_witness :
  mem (world_of (i2c_write_regs (T:=dwm1001) 1 0 0x50 0x1234 0x1000 2 0
                                w_stop)) 0x20000000 = mem w_stop 0x20000000 /\
  mem (world_of (i2c_write_bytes (T:=dwm1001) 1 0 0x50 0x1000 2 0 w_stop))
      0x20000000 = mem w_stop 0x20000000.
Proof.
  apply (writes_change_only_tx_buf (T:=dwm1001)).
  unfold in_tx_buf. simpl. lia.
Defined.

(** ** Return values *)

Section Status.
Context {T : Target}.

Lemma classify_status (dev : Z) : yields status_code (classify dev).
Proof.
  unfold classify, status_code.
  eapply yields_bind; [apply yields_any | intros err _].
  apply yields_if; [| apply yields_ret; auto].
  eapply yields_bind; [apply yields_any | intros _ _].
  eapply yields_bind; [apply yields_any | intros src _].
  apply yields_if.
  - eapply yields_bind; [apply yields_any | intros _ _]. apply yields_ret. auto.
  - eapply yields_bind; [apply yields_any | intros src' _].
    apply yields_if.
    + eapply yields_bind; [apply yields_any | intros _ _]. apply yields_ret. auto.
    + apply yields_ret. auto.
Qed.

Lemma finish_status (fuel : nat) (dev flag : Z) :
  yields status_code (finish fuel dev flag).
Proof.
  unfold finish.
  eapply yields_bind; [apply yields_any | intros _ _]. apply classify_status.
Qed.

Lemma direct_status (fuel : nat) (dev addr data len flags : Z) :
  yields status_code (direct_i2c_write_bytes fuel dev addr data len flags).
Proof.
  unfold direct_i2c_write_bytes.
  eapply yields_bind; [apply yields_any | intros _ _].
  apply yields_if; [apply yields_ret; unfold status_code; auto |].
  do 5 (eapply yields_bind; [apply yields_any | intros ? _]).
  apply finish_status.
Qed.

Lemma read_bytes_status (fuel : nat) (dev addr data len flags : Z) :
  yields status_code (i2c_read_bytes fuel dev addr data len flags).
Proof.
  unfold i2c_read_bytes.
  eapply yields_bind; [apply yields_any | intros _ _].
  apply yields_if; [apply yields_ret; unfold status_code; auto |].
  do 5 (eapply yields_bind; [apply yields_any | intros ? _]).
  apply finish_status.
Qed.

Lemma read_regs_status (fuel : nat) (dev addr reg data len flags : Z) :
  yields status_code (i2c_read_regs fuel dev addr reg data len flags).
Proof.
  unfold i2c_read_regs.
  eapply yields_bind; [apply yields_any | intros _ _].
  apply yields_if; [apply yields_ret; unfold status_code; auto |].
  do 8 (eapply yields_bind; [apply yields_any | intros ? _]).
  apply finish_status.
Qed.

Lemma released_status (m : M Z) :
  yields status_code m ->
  yields status_code (r <- m ;; mutex_unlock buffer_lock ;; ret r).
Proof.
  intros H. eapply yields_bind; [exact H | intros r Hr].
  eapply yields_bind; [apply yields_any | intros _ _].
  now apply yields_ret.
Qed.

Lemma write_regs_status (fuel : nat) (dev addr reg data len flags : Z) :
  yields status_code (i2c_write_regs fuel dev addr reg data len flags).
Proof.
  unfold i2c_write_regs.
  eapply yields_bind; [apply yields_any | intros _ _].
  apply yields_if; [apply yields_ret; unfold status_code; auto |].
  do 3 (eapply yields_bind; [apply yields_any | intros ? _]).
  apply released_status, direct_status.
Qed.

Lemma write_bytes_status (fuel : nat) (dev addr data len flags : Z) :
  yields status_code (i2c_write_bytes fuel dev addr data len flags).
Proof.
  unfold i2c_write_bytes. apply yields_if; [apply direct_status |].
  do 3 (eapply yields_bind; [apply yields_any | intros ? _]).
  apply released_status, direct_status.
Qed.

End Status.



(** ** Assertions *)

Section Safe.

Lemma safe_ret {A} (a : A) : safe (ret a).
Proof. intros w w'. discriminate. Qed.

Lemma safe_bind {A B} (m : M A) (k : A -> M B) :
  safe m -> (forall a, safe (k a)) -> safe (bind m k).
Proof.
  intros Hm Hk w w'. unfold bind.
  destruct (m w) as [a w1 | w1 | w1] eqn:E.
  - apply Hk.
  - now apply Hm in E.
  - discriminate.
Qed.

Lemma safe_if {A} (c : bool) (m1 m2 : M A) :
  safe m1 -> safe m2 -> safe (if c then m1 else m2).
Proof. now destruct c. Qed.

Lemma safe_Pip_out (r v : Z) : safe (Pip_out r v).
Proof. intros w w'. discriminate. Qed.

Lemma safe_Pip_in (r : Z) : safe (Pip_in r).
Proof. intros w w'. discriminate. Qed.

Lemma safe_mutex_lock (m : mutex) : safe (mutex_lock m).
Proof. intros w w'. discriminate. Qed.

End Safe.

Section Asserts.
Context {T : Target}.

Lemma safe_busy_wait (fuel : nat) (dev : Z) : safe (busy_wait fuel dev).
Proof.
  induction fuel as [| fuel IH]; simpl.
  - intros w w'. discriminate.
  - apply safe_bind; [apply safe_Pip_in | intros amount].
    apply safe_bind; [apply safe_Pip_in | intros maxcnt].
    apply safe_if; [| apply safe_ret].
    apply safe_bind; [apply safe_Pip_in | intros err].
    apply safe_if; [exact IH | apply safe_ret].
Qed.

(** [finish] asserts nothing. *)
Lemma safe_finish (fuel : nat) (dev flag : Z) : safe (finish fuel dev flag).
Proof.
  unfold finish, await, classify.
  repeat first
    [ apply safe_ret | apply safe_busy_wait | apply safe_Pip_out
    | apply safe_Pip_in | apply safe_mutex_lock | apply safe_if
    | apply safe_bind; [| intros ?] ].
Qed.

Lemma then_release_panics (o : outcome Z) (w : world) :
  then_release o = Panicked w <-> o = Panicked w.
Proof. destruct o; simpl; split; congruence. Qed.

(** The contract of the direct write, of both reads and, with 253 for 256,
    of [i2c_write_regs]. *)
Lemma guard_cases (dev data len lim : Z) :
  (dev < I2C_NUMOF /\ data <> 0 /\ 0 < len < lim) \/
  (I2C_NUMOF <= dev \/ data = 0 \/ len <= 0 \/ lim <= len).
Proof. lia. Qed.

Lemma direct_panics_iff (fuel : nat) (dev addr data len flags : Z) (w : world) :
  panics (direct_i2c_write_bytes fuel dev addr data len flags) w <->
  I2C_NUMOF <= dev \/ data = 0 \/ len <= 0 \/ 256 <= len.
Proof.
  destruct (guard_cases dev data len 256) as [(Hd & Hp & Hl) | Hbad].
  - split; [| lia]. intros [w' E]. exfalso.
    destruct (Z.eq_dec (Z.land flags I2C_NOSTART) 0) as [Hs | Hs];
      [destruct (Z.eq_dec (Z.land flags I2C_ADDR10) 0) as [Ha | Ha] |].
    + rewrite direct_accepted in E by assumption. now apply safe_finish in E.
    + rewrite direct_rejected in E by auto. discriminate.
    + rewrite direct_rejected in E by auto. discriminate.
  - split; [auto |]. intros _. exists w. now apply direct_panics.
Qed.

Lemma read_bytes_panics_iff (fuel : nat) (dev addr data len flags : Z) (w : world) :
  panics (i2c_read_bytes fuel dev addr data len flags) w <->
  I2C_NUMOF <= dev \/ data = 0 \/ len <= 0 \/ 256 <= len.
Proof.
  destruct (guard_cases dev data len 256) as [(Hd & Hp & Hl) | Hbad].
  - split; [| lia]. intros [w' E]. exfalso.
    destruct (Z.eq_dec (Z.land flags I2C_NOSTART) 0) as [Hs | Hs];
      [destruct (Z.eq_dec (Z.land flags I2C_ADDR10) 0) as [Ha | Ha];
       [destruct (Z.eq_dec (Z.land flags I2C_NOSTOP) 0) as [Ht | Ht] |] |].
    + rewrite read_bytes_accepted in E by assumption. now apply safe_finish in E.
    + rewrite read_bytes_rejected in E by auto. discriminate.
    + rewrite read_bytes_rejected in E by auto. discriminate.
    + rewrite read_bytes_rejected in E by auto. discriminate.
  - split; [auto |]. intros _. exists w.
    now apply (contract_violations_panic fuel dev addr 0 data len flags w).
Qed.

Lemma read_regs_panics_iff
    (fuel : nat) (dev addr reg data len flags : Z) (w : world) :
  panics (i2c_read_regs fuel dev addr reg data len flags) w <->
  I2C_NUMOF <= dev \/ data = 0 \/ len <= 0 \/ 256 <= len.
Proof.
  destruct (guard_cases dev data len 256) as [(Hd & Hp & Hl) | Hbad].
  - split; [| lia]. intros [w' E]. exfalso.
    destruct (Z.eq_dec (Z.land flags I2C_NOSTART) 0) as [Hs | Hs];
      [destruct (Z.eq_dec (Z.land flags I2C_ADDR10) 0) as [Ha | Ha];
       [destruct (Z.eq_dec (Z.land flags I2C_NOSTOP) 0) as [Ht | Ht] |] |].
    + rewrite read_regs_accepted in E by assumption. now apply safe_finish in E.
    + rewrite read_regs_rejected in E by auto. discriminate.
    + rewrite read_regs_rejected in E by auto. discriminate.
    + rewrite read_regs_rejected in E by auto. discriminate.
  - split; [auto |]. intros _. exists w.
    now apply (contract_violations_panic fuel dev addr reg data len flags w).
Qed.

Lemma write_regs_panics_iff
    (fuel : nat) (dev addr reg data len flags : Z) (w : world) :
  tx_buf <> 0 ->
  panics (i2c_write_regs fuel dev addr reg data len flags) w <->
  I2C_NUMOF <= dev \/ data = 0 \/ len <= 0 \/ 253 <= len.
Proof.
  intros Hb.
  destruct (guard_cases dev data len 253) as [(Hd & Hp & Hl) | Hbad].
  - split; [| lia]. intros [w' E]. exfalso.
    destruct (Z.eq_dec (Z.land flags I2C_NOSTART) 0) as [Hs | Hs];
      [destruct (Z.eq_dec (Z.land flags I2C_ADDR10) 0) as [Ha | Ha] |].
    + rewrite write_regs_staged in E by assumption.
      apply (proj1 (then_release_panics _ _)) in E.
      assert (H : panics (direct_i2c_write_bytes fuel dev addr tx_buf
                            (reg_addr_len flags + len) flags)
                         (staged w
                            (copy (with_selector (mem w) flags reg)
                                  (tx_buf + reg_addr_len flags) data len)
                            (selector_stores flags reg
                             ++ [Memcpy (tx_buf + reg_addr_len flags) data len])))
        by (now exists w').
      apply direct_panics_iff in H.
      destruct (reg_addr_len_cases flags) as [Hn | Hn]; rewrite Hn in H; lia.
    + rewrite write_regs_rejected in E by auto. discriminate.
    + rewrite write_regs_rejected in E by auto. discriminate.
  - split; [auto |]. intros _. exists w.
    now apply (contract_violations_panic fuel dev addr reg data len flags w).
Qed.

Lemma write_bytes_panics_iff
    (fuel : nat) (dev addr data len flags : Z) (w : world) :
  tx_buf <> 0 ->
  panics (i2c_write_bytes fuel dev addr data len flags) w <->
  I2C_NUMOF <= dev \/ (in_ram data = true /\ data = 0) \/ len <= 0 \/ 256 <= len.
Proof.
  intros Hb. destruct (in_ram data) eqn:Hram.
  - unfold panics. rewrite write_bytes_direct by assumption.
    fold (panics (direct_i2c_write_bytes fuel dev addr data len flags) w).
    rewrite direct_panics_iff. intuition congruence.
  - destruct (Z_lt_dec 0 len) as [Hl | Hl];
      [destruct (Z_lt_dec len 256) as [Hu | Hu] |].
    + unfold panics. rewrite write_bytes_staged by auto.
      split.
      * intros [w' E]. apply (proj1 (then_release_panics _ _)) in E.
        assert (H : panics (direct_i2c_write_bytes fuel dev addr tx_buf len flags)
                           (staged w (copy (mem w) tx_buf data len)
                                   [Memcpy tx_buf data len]))
          by (now exists w').
        apply direct_panics_iff in H. lia.
      * intros [Hd | [[H _] | H]]; [| discriminate | lia].
        eexists. apply (proj2 (then_release_panics _ _)). apply direct_panics. auto.
    + split; [lia |]. intros _. exists w.
      apply (contract_violations_panic fuel dev addr 0 data len flags w). lia.
    + split; [lia |]. intros _. exists w.
      apply (contract_violations_panic fuel dev addr 0 data len flags w). lia.
Qed.

(** Where the assertion fails, given when. *)
Lemma panics_where {A} (m : M A) (w : world) (C : Prop) :
  (panics m w <-> C) -> (C -> m w = Panicked w) ->
  forall w', m w = Panicked w' <-> C /\ w' = w.
Proof.
  intros Hiff Hat w'. split.
  - intros E. assert (HC : C) by (apply Hiff; now exists w').
    split; [exact HC |]. rewrite (Hat HC) in E. congruence.
  - intros [HC ->]. now apply Hat.
Qed.

Lemma direct_panics_where
    (fuel : nat) (dev addr data len flags : Z) (w w' : world) :
  direct_i2c_write_bytes fuel dev addr data len flags w = Panicked w' <->
  (I2C_NUMOF <= dev \/ data = 0 \/ len <= 0 \/ 256 <= len) /\ w' = w.
Proof.
  apply panics_where; [apply direct_panics_iff | apply direct_panics].
Qed.

Lemma write_bytes_panics_where
    (fuel : nat) (dev addr data len flags : Z) (w w' : world) :
  tx_buf <> 0 ->
  i2c_write_bytes fuel dev addr data len flags w = Panicked w' <->
  (in_ram data = true /\
   (I2C_NUMOF <= dev \/ data = 0 \/ len <= 0 \/ 256 <= len) /\ w' = w) \/
  (in_ram data = false /\ (len <= 0 \/ 256 <= len) /\ w' = w) \/
  (in_ram data = false /\ 0 < len < 256 /\ I2C_NUMOF <= dev /\
   w' = World (copy (mem w) tx_buf data len) true (hw w) (cursor w)
              (trace w ++ [MutexLock buffer_lock; Memcpy tx_buf data len])).
Proof.
  intros Hb. destruct (in_ram data) eqn:Hram.
  - rewrite write_bytes_direct by assumption. rewrite direct_panics_where.
    split.
    + intros H. left. split; [reflexivity | exact H].
    + intros [(_ & H) | [(H & _) | (H & _)]]; [exact H | |]; discriminate.
  - destruct (Z_lt_dec 0 len) as [Hl | Hl];
      [destruct (Z_lt_dec len 256) as [Hu | Hu] |].
    + rewrite write_bytes_staged by auto.
      rewrite then_release_panics, direct_panics_where. unfold staged.
      split.
      * intros (Hc & ->). right. right.
        repeat split; lia.
      * intros [(H & _) | [(_ & H & _) | (_ & _ & Hd & ->)]];
          [discriminate | lia |].
        split; [now left | reflexivity].
    + rewrite (proj2 (proj2 (contract_violations_panic
                        fuel dev addr 0 data len flags w))) by lia.
      split.
      * intros [= <-]. right. left. repeat split; lia.
      * intros [(H & _) | [(_ & _ & ->) | (_ & H & _)]];
          [discriminate | reflexivity | lia].
    + rewrite (proj2 (proj2 (contract_violations_panic
                        fuel dev addr 0 data len flags w))) by lia.
      split.
      * intros [= <-]. right. left. repeat split; lia.
      * intros [(H & _) | [(_ & _ & ->) | (_ & H & _)]];
          [discriminate | reflexivity | lia].
Qed.

End Asserts.

(** X4.  An assertion fails in a transfer operation exactly when its contract
    is violated: the bus number is not below [I2C_NUMOF], the data pointer is
    null, or the length is outside 1..255 (1..252 for [i2c_write_regs]).
    Nothing in [finish] or after the guards can fail one, and the two reads
    and [i2c_write_regs] fail before they have done anything: the world at
    the failing assertion is the world at the call.  The plain write from RAM
    does the same.  From outside RAM the plain write asserts the length
    first, with the world untouched; the data pointer is not asserted at all,
    since the direct write is given [tx_buf]; and the bus number is asserted
    only once [buffer_lock] is taken and the copy into [tx_buf] made, which
    is the world the failing assertion is left in. *)
Theorem asserts_fail_exactly_on_violations {T : Target}
    (fuel : nat) (dev addr reg data len flags : Z) (w w' : world) :
  tx_buf <> 0 ->
  (i2c_read_bytes fuel dev addr data len flags w = Panicked w' <->
   (I2C_NUMOF <= dev \/ data = 0 \/ len <= 0 \/ 256 <= len) /\ w' = w) /\
  (i2c_read_regs fuel dev addr reg data len flags w = Panicked w' <->
   (I2C_NUMOF <= dev \/ data = 0 \/ len <= 0 \/ 256 <= len) /\ w' = w) /\
  (i2c_write_regs fuel dev addr reg data len flags w = Panicked w' <->
   (I2C_NUMOF <= dev \/ data = 0 \/ len <= 0 \/ 253 <= len) /\ w' = w) /\
  (i2c_write_bytes fuel dev addr data len flags w = Panicked w' <->
   (in_ram data = true /\
    (I2C_NUMOF <= dev \/ data = 0 \/ len <= 0 \/ 256 <= len) /\ w' = w) \/
   (in_ram data = false /\ (len <= 0 \/ 256 <= len) /\ w' = w) \/
   (in_ram data = false /\ 0 < len < 256 /\ I2C_NUMOF <= dev /\
    w' = World (copy (mem w) tx_buf data len) true (hw w) (cursor w)
               (trace w ++ [MutexLock buffer_lock; Memcpy tx_buf data len]))).
Proof.
  intros Hb. split; [| split; [| split]].
  - apply panics_where; [apply read_bytes_panics_iff |].
    intros H. now apply (contract_violations_panic fuel dev addr 0 data len flags w).
  - apply panics_where; [apply read_regs_panics_iff |].
    intros H. now apply (contract_violations_panic fuel dev addr reg data len flags w).
  - apply panics_where; [now apply write_regs_panics_iff |].
    intros H. now apply (contract_violations_panic fuel dev addr reg data len flags w).
  - now apply write_bytes_panics_where.
Qed.

(** A register write of 253 bytes fails at once; a plain write from flash to
    a bus that does not exist fails holding [buffer_lock], after the copy;
    a plain write from a null source fails nowhere. *)
Lemma asserts_fail_exactly_on_violations_witness :
  i2c_write_regs (T:=dwm1001) 1 0 0x50 0x12 0x20001000 253 0 w_stop
    = Panicked w_stop /\
  (exists w', i2c_write_bytes (T:=dwm1001) 1 1 0x50 0x1000 2 0 w_flash
              = Panicked w' /\
              buffer_locked w' = true /\
              trace w' = [MutexLock buffer_lock; Memcpy tx_buf 0x1000 2]) /\
  (forall w', i2c_write_bytes (T:=dwm1001) 1 0 0x50 0 2 0 w_flash
              <> Panicked w').
Proof.
  split; [| split].
  - pose proof (asserts_fail_exactly_on_violations (T:=dwm1001)
                  1 0 0x50 0x12 0x20001000 253 0 w_stop w_stop) as H.
    specialize (H ltac:(vm_compute; discriminate)).
    destruct H as (_ & _ & H & _).
    apply H. split; [simpl; lia | reflexivity].
  - exists (World (copy (mem w_flash) tx_buf 0x1000 2) true
                  (hw w_flash) (cursor w_flash)
                  (trace w_flash
                   ++ [MutexLock buffer_lock; Memcpy tx_buf 0x1000 2])).
    pose proof (asserts_fail_exactly_on_violations (T:=dwm1001)
                  1 1 0x50 0 0x1000 2 0 w_flash
                  (World (copy (mem w_flash) tx_buf 0x1000 2) true
                         (hw w_flash) (cursor w_flash)
                         (trace w_flash
                          ++ [MutexLock buffer_lock; Memcpy tx_buf 0x1000 2])))
      as H.
    specialize (H ltac:(vm_compute; discriminate)).
    destruct H as (_ & _ & _ & H).
    split; [| split; reflexivity].
    apply H. right. right.
    split; [vm_compute; reflexivity |].
    split; [lia |]. split; [simpl; lia | reflexivity].
  - intros w' E.
    pose proof (asserts_fail_exactly_on_violations (T:=dwm1001)
                  1 0 0x50 0 0 2 0 w_flash w') as H.
    specialize (H ltac:(vm_compute; discriminate)).
    destruct H as (_ & _ & _ & H).
    apply H in E.
    destruct E as [(E & _) | [(_ & E & _) | (_ & _ & E & _)]].
    + vm_compute in E. discriminate.
    + lia.
    + simpl in E. lia.
Defined.

(** ** Flags the driver does not know *)

(** X6.  The operations look at [flags] through four tests only: no start,
    10-bit address, no stop and 16-bit register.  Two flag words that agree
    on these make every operation behave the same, whatever other bits are
    set; the plain read and write do not look at the 16-bit register flag
    either. *)
Theorem unknown_flag_bits_are_ignored {T : Target}
    (fuel : nat) (dev addr reg data len flags flags' : Z) :
  same_flag I2C_NOSTART flags flags' ->
  same_flag I2C_ADDR10 flags flags' ->
  same_flag I2C_NOSTOP flags flags' ->
  i2c_read_bytes fuel dev addr data len flags =
    i2c_read_bytes fuel dev addr data len flags' /\
  i2c_write_bytes fuel dev addr data len flags =
    i2c_write_bytes fuel dev addr data len flags' /\
  (same_flag I2C_REG16 flags flags' ->
   i2c_read_regs fuel dev addr reg data len flags =
     i2c_read_regs fuel dev addr reg data len flags' /\
   i2c_write_regs fuel dev addr reg data len flags =
     i2c_write_regs fuel dev addr reg data len flags').
Proof.
  unfold same_flag. intros Hs Ha Ht.
  split; [| split; [| intros Hr; split]].
  - unfold i2c_read_bytes. rewrite !truthy_land_lor, Hs, Ha, Ht. reflexivity.
  - unfold i2c_write_bytes, direct_i2c_write_bytes.
    rewrite !truthy_land_lor, Hs, Ha, Ht. reflexivity.
  - unfold i2c_read_regs. rewrite !truthy_land_lor, Hs, Ha, Ht, Hr. reflexivity.
  - unfold i2c_write_regs, direct_i2c_write_bytes.
    rewrite !truthy_land_lor, Hs, Ha, Ht, Hr. reflexivity.
Qed.

Lemma unknown_flag_bits_are_ignored_witness :
  i2c_read_bytes (T:=dwm1001) 1 0 0x50 0x20001000 2 0x80 =
    i2c_read_bytes (T:=dwm1001) 1 0 0x50 0x20001000 2 0 /\
  i2c_write_bytes (T:=dwm1001) 1 0 0x50 0x20001000 2 0x80 =
    i2c_write_bytes (T:=dwm1001) 1 0 0x50 0x20001000 2 0.
Proof.
  pose proof (unknown_flag_bits_are_ignored (T:=dwm1001)
                1 0 0x50 0 0x20001000 2 0x80 0) as H.
  specialize (H ltac:(vm_compute; reflexivity) ltac:(vm_compute; reflexivity)
                ltac:(vm_compute; reflexivity)).
  destruct H as (H1 & H2 & _). split; [exact H1 | exact H2].
Defined.

(** ** The interrupt handler and [finish] *)

Lemma land_lor_absorb (a c : Z) : Z.land a (Z.lor a c) = a.
Proof.
  apply Z.bits_inj'. intros n _.
  rewrite Z.land_spec, Z.lor_spec. now destruct (Z.testbit a n).
Qed.

Lemma lor_shuffle (a b c : Z) : Z.lor (Z.lor a b) c = Z.lor (Z.lor c b) a.
Proof.
  apply Z.bits_inj'. intros n _. rewrite !Z.lor_spec.
  now destruct (Z.testbit a n), (Z.testbit b n), (Z.testbit c n).
Qed.



(** ** The plain read *)

Section PlainRead.
Context {T : Target}.

Ltac tally_out :=
  repeat first
    [ rewrite count_out_nil
    | rewrite count_out_cons
    | rewrite count_out_skip by reflexivity
    | rewrite count_out_app
    | rewrite twim_same
    | rewrite twim_apart by (assumption || congruence || discriminate) ].

Ltac tally_lock :=
  repeat first
    [ rewrite count_lock_nil | rewrite count_lock_cons | rewrite count_lock_app ];
  cbn [is_lock_of].

Lemma read_bytes_run (fuel : nat) (dev addr data len flags : Z) (w : world) :
  dev < I2C_NUMOF -> data <> 0 -> 0 < len < 256 ->
  Z.land flags I2C_NOSTART = 0 -> Z.land flags I2C_ADDR10 = 0 ->
  Z.land flags I2C_NOSTOP = 0 ->
  Z.land TWIM_INTEN_STOPPED_Msk TWIM_INTEN_LASTTX_Msk = 0 ->
  i2c_read_bytes fuel dev addr data len flags w =
  classify dev (advance w 1 (rx_events dev addr data len (hw w (cursor w)))).
Proof.
  intros Hd Hp Hl Hs Ha Ht Hmask.
  rewrite read_bytes_accepted by assumption.
  rewrite (finish_stop fuel dev _ _ Hmask).
  rewrite advance_advance. reflexivity.
Qed.

Lemma rx_events_counts (dev addr data len s : Z) :
  count_lock (busy dev) (rx_events dev addr data len s) = 1%nat /\
  (indices_apart ->
   count_out (twim dev TASKS_STARTRX_INDEX) (rx_events dev addr data len s) = 1%nat /\
   count_out (twim dev TASKS_STARTTX_INDEX) (rx_events dev addr data len s) = 0%nat /\
   count_out (twim dev TXD_PTR_INDEX) (rx_events dev addr data len s) = 0%nat /\
   count_out (twim dev TXD_MAXCNT_INDEX) (rx_events dev addr data len s) = 0%nat /\
   count_out (twim dev SHORTS_INDEX) (rx_events dev addr data len s) = 1%nat).
Proof.
  unfold rx_events, rx_setup, wait_events, stop_ack. split.
  - destruct (truthy s); cbn [app]; tally_lock; rewrite Z.eqb_refl; reflexivity.
  - intros Hap.
    repeat split; destruct (truthy s); cbn [app]; tally_out; reflexivity.
Qed.

End PlainRead.

(** X5.  A plain read that passes its guards is one receive transaction: it
    programs the address, the receive pointer and count, arms the
    last-received-to-stop short-circuit alone, writes the start-receive task
    once, unmasks stop and error, blocks once on [busy[dev]] and goes straight
    to the classification.  It returns for every fuel, so it never polls; it
    never starts the transmitter and never programs the transmit pointer or
    count. *)
Theorem read_bytes_one_receive {T : Target}
    (fuel : nat) (dev addr data len flags : Z) (w : world) :
  dev < I2C_NUMOF -> data <> 0 -> 0 < len < 256 ->
  Z.land flags I2C_NOSTART = 0 -> Z.land flags I2C_ADDR10 = 0 ->
  Z.land flags I2C_NOSTOP = 0 ->
  Z.land TWIM_INTEN_STOPPED_Msk TWIM_INTEN_LASTTX_Msk = 0 ->
  let o := i2c_read_bytes fuel dev addr data len flags w in
  let evs :=
    [PipOut (twim dev ADDRESS_INDEX) addr;
     PipOut (twim dev RXD_PTR_INDEX) data;
     PipOut (twim dev RXD_MAXCNT_INDEX) len;
     PipOut (twim dev SHORTS_INDEX) TWIM_SHORTS_LASTRX_STOP_Msk;
     PipOut (twim dev TASKS_STARTRX_INDEX) 1;
     PipOut (twim dev INTENSET_INDEX)
            (Z.lor TWIM_INTEN_STOPPED_Msk TWIM_INTEN_ERROR_Msk);
     MutexLock (busy dev);
     PipIn (twim dev EVENTS_STOPPED_INDEX) (hw w (cursor w))]
    ++ stop_ack dev (hw w (cursor w)) in
  o = classify dev
        (World (mem w) (buffer_locked w) (hw w) (S (cursor w)) (trace w ++ evs)) /\
  exists r tl,
    retval o = Some r /\
    trace (world_of o) = trace w ++ evs ++ tl /\
    Forall (finish_event dev) tl /\
    count_lock (busy dev) (evs ++ tl) = 1%nat /\
    (indices_apart ->
     count_out (twim dev TASKS_STARTRX_INDEX) (evs ++ tl) = 1%nat /\
     count_out (twim dev TASKS_STARTTX_INDEX) (evs ++ tl) = 0%nat /\
     count_out (twim dev TXD_PTR_INDEX) (evs ++ tl) = 0%nat /\
     count_out (twim dev TXD_MAXCNT_INDEX) (evs ++ tl) = 0%nat /\
     count_out (twim dev SHORTS_INDEX) (evs ++ tl) = 1%nat).
Proof.
  intros Hd Hp Hl Hs Ha Ht Hmask o evs.
  assert (He : evs = rx_events dev addr data len (hw w (cursor w)))
    by reflexivity.
  clearbody evs.
  assert (Ho : o = classify dev
             (World (mem w) (buffer_locked w) (hw w) (S (cursor w))
                    (trace w ++ evs))).
  { subst o. rewrite read_bytes_run by assumption. now rewrite He. }
  split; [exact Ho |].
  set (w1 := World _ _ _ _ _) in Ho.
  pose proof (io_only_classify dev w1) as Hio.
  pose proof (emits_classify dev (hw w1) (cursor w1)) as Hem.
  destruct (classify_returns dev (blank (hw w1) (cursor w1))) as (r & w2 & Hc).
  rewrite Hc in Hio, Hem. simpl in Hem.
  exists r, (trace w2). rewrite Ho, Hio. simpl.
  assert (Hno : forall r, indices_apart -> r <> EVENTS_ERROR ->
            r <> EVENTS_STOPPED_INDEX -> r <> EVENTS_ERROR_INDEX ->
            r <> ERRORSRC_INDEX ->
            count_out (twim dev r) (trace w2) = 0%nat).
  { intros r0 Hap H1 H2 H3 H4.
    apply (finish_events_no_out dev _ (trace w2)); [| | | exact Hem];
      apply Z.eqb_neq, twim_apart; (assumption || discriminate || congruence). }
  destruct (rx_events_counts dev addr data len (hw w (cursor w))) as (Hlk & Hout).
  rewrite <- He in Hlk, Hout.
  split; [reflexivity | split; [now rewrite <- app_assoc | split; [exact Hem |]]].
  split.
  - rewrite count_lock_app, Hlk.
    now rewrite (finish_events_no_lock dev (busy dev) (trace w2) Hem).
  - intros Hap. destruct (Hout Hap) as (H1 & H2 & H3 & H4 & H5).
    rewrite !count_out_app, H1, H2, H3, H4, H5.
    rewrite !Hno by (assumption || discriminate). repeat split; reflexivity.
Qed.

(** Two bytes read from address [0x50] into RAM, on a peripheral that raises
    the stop event and no error. *)
Lemma read_bytes_one_receive_witness :
  let o := i2c_read_bytes 0 0 0x50 0x20001000 2 0 w_stop in
  retval o = Some 0 /\
  trace (world_of o) =
    [PipOut (twim 0 ADDRESS_INDEX) 0x50;
     PipOut (twim 0 RXD_PTR_INDEX) 0x20001000;
     PipOut (twim 0 RXD_MAXCNT_INDEX) 2;
     PipOut (twim 0 SHORTS_INDEX) TWIM_SHORTS_LASTRX_STOP_Msk;
     PipOut (twim 0 TASKS_STARTRX_INDEX) 1;
     PipOut (twim 0 INTENSET_INDEX) (Z.lor TWIM_INTEN_STOPPED_Msk TWIM_INTEN_ERROR_Msk);
     MutexLock (busy 0);
     PipIn (twim 0 EVENTS_STOPPED_INDEX) 1;
     PipOut (twim 0 EVENTS_STOPPED_INDEX) 0;
     PipIn (twim 0 EVENTS_ERROR_INDEX) 0].
Proof.
  pose proof (read_bytes_one_receive (T:=dwm1001)
                0 0 0x50 0x20001000 2 0 w_stop) as H.
  specialize (H ltac:(vm_compute; reflexivity) ltac:(discriminate) ltac:(lia)
                ltac:(vm_compute; reflexivity) ltac:(vm_compute; reflexivity)
                ltac:(vm_compute; reflexivity) ltac:(vm_compute; reflexivity)).
  cbv zeta in H. destruct H as (H & _).
  cbv zeta. rewrite H. vm_compute. split; reflexivity.
Defined.

(** ** [buffer_lock] *)

Section BufferLock.
Context {T : Target}.

Lemma flag_cases2 (flags : Z) :
  (Z.land flags I2C_NOSTART = 0 /\ Z.land flags I2C_ADDR10 = 0) \/
  (Z.land flags I2C_NOSTART <> 0 \/ Z.land flags I2C_ADDR10 <> 0).
Proof. lia. Qed.

Lemma flag_cases3 (flags : Z) :
  (Z.land flags I2C_NOSTART = 0 /\ Z.land flags I2C_ADDR10 = 0 /\
   Z.land flags I2C_NOSTOP = 0) \/
  (Z.land flags I2C_NOSTART <> 0 \/ Z.land flags I2C_ADDR10 <> 0 \/
   Z.land flags I2C_NOSTOP <> 0).
Proof. lia. Qed.

(** The direct write and the reads leave [buffer_lock] as it is. *)
Lemma direct_keeps_lock (fuel : nat) (dev addr data len flags : Z) (w : world) :
  buffer_locked (world_of (direct_i2c_write_bytes fuel dev addr data len flags w))
  = buffer_locked w.
Proof.
  destruct (guard_cases dev data len 256) as [(Hd & Hp & Hl) | Hbad].
  - destruct (flag_cases2 flags) as [(Hs & Ha) | Hf].
    + now apply direct_facts.
    + now rewrite direct_rejected.
  - now rewrite direct_panics.
Qed.

Lemma read_bytes_keeps_lock (fuel : nat) (dev addr data len flags : Z) (w : world) :
  buffer_locked (world_of (i2c_read_bytes fuel dev addr data len flags w))
  = buffer_locked w.
Proof.
  destruct (guard_cases dev data len 256) as [(Hd & Hp & Hl) | Hbad].
  - destruct (flag_cases3 flags) as [(Hs & Ha & Ht) | Hf].
    + rewrite read_bytes_accepted by assumption.
      now destruct (finish_frame fuel dev TWIM_INTEN_STOPPED_Msk
                      (advance w 0 (rx_setup dev addr data len))) as (_ & -> & _).
    + now rewrite read_bytes_rejected.
  - now rewrite (proj1 (proj1 (proj2 (contract_violations_panic
                   fuel dev addr 0 data len flags w)) Hbad)).
Qed.

Lemma read_regs_keeps_lock
    (fuel : nat) (dev addr reg data len flags : Z) (w : world) :
  buffer_locked (world_of (i2c_read_regs fuel dev addr reg data len flags w))
  = buffer_locked w.
Proof.
  destruct (guard_cases dev data len 256) as [(Hd & Hp & Hl) | Hbad].
  - destruct (flag_cases3 flags) as [(Hs & Ha & Ht) | Hf].
    + rewrite read_regs_accepted by assumption.
      match goal with
      | |- context [finish ?f ?d ?g ?w1] =>
          now destruct (finish_frame f d g w1) as (_ & -> & _)
      end.
    + now rewrite read_regs_rejected.
  - now rewrite (proj2 (proj1 (proj2 (contract_violations_panic
                   fuel dev addr reg data len flags w)) Hbad)).
Qed.

Lemma returned_world {A} (o : outcome A) (r : A) :
  retval o = Some r -> o = Returned r (world_of o).
Proof. destruct o; simpl; congruence. Qed.

Lemma then_release_lock (o : outcome Z) :
  buffer_locked (world_of o) = true ->
  buffer_locked (world_of (then_release o)) = held_until_return (then_release o).
Proof. destruct o; simpl; intros H; [reflexivity | exact H | exact H]. Qed.

Lemma write_regs_lock (fuel : nat) (dev addr reg data len flags : Z) (w : world) :
  let o := i2c_write_regs fuel dev addr reg data len flags w in
  buffer_locked (world_of o) =
    if (dev <? I2C_NUMOF) && truthy data && (0 <? len) && (len <? 253)
    then if truthy (Z.land flags (Z.lor I2C_NOSTART I2C_ADDR10))
         then buffer_locked w
         else held_until_return o
    else buffer_locked w.
Proof.
  intros o. subst o.
  destruct (guard_cases dev data len 253) as [(Hd & Hp & Hl) | Hbad].
  - rewrite (guard_passes dev data len 253 Hd Hp Hl).
    destruct (flag_cases2 flags) as [(Hs & Ha) | Hf].
    + rewrite (flags_clear _ _ _ Hs Ha).
      rewrite write_regs_staged by assumption.
      apply then_release_lock. now rewrite direct_keeps_lock.
    + rewrite (flags_set _ _ _ Hf). now rewrite write_regs_rejected.
  - rewrite (guard_fails dev data len 253 Hbad).
    now rewrite (proj1 (contract_violations_panic
                          fuel dev addr reg data len flags w) Hbad).
Qed.

Lemma write_bytes_lock (fuel : nat) (dev addr data len flags : Z) (w : world) :
  let o := i2c_write_bytes fuel dev addr data len flags w in
  buffer_locked (world_of o) =
    if in_ram data then buffer_locked w
    else if (0 <? len) && (len <? 256) then held_until_return o
         else buffer_locked w.
Proof.
  intros o. subst o. destruct (in_ram data) eqn:Hram.
  - rewrite write_bytes_direct by assumption. apply direct_keeps_lock.
  - destruct (Z.ltb_spec 0 len) as [Hl | Hl];
      [destruct (Z.ltb_spec len 256) as [Hu | Hu] |]; simpl.
    + rewrite write_bytes_staged by auto.
      apply then_release_lock. now rewrite direct_keeps_lock.
    + now rewrite (proj2 (proj2 (contract_violations_panic
                            fuel dev addr 0 data len flags w))) by lia.
    + now rewrite (proj2 (proj2 (contract_violations_panic
                            fuel dev addr 0 data len flags w))) by lia.
Qed.

(** A call that returns leaves [buffer_lock] free when it found it free. *)
Lemma lock_free_on_return
    (fuel : nat) (dev addr reg data len flags : Z) (w w' : world) (r : Z) :
  buffer_locked w = false ->
  i2c_read_bytes fuel dev addr data len flags w = Returned r w' \/
  i2c_read_regs fuel dev addr reg data len flags w = Returned r w' \/
  i2c_write_regs fuel dev addr reg data len flags w = Returned r w' \/
  i2c_write_bytes fuel dev addr data len flags w = Returned r w' ->
  buffer_locked w' = false.
Proof.
  intros Hfree [E | [E | [E | E]]].
  - pose proof (read_bytes_keeps_lock fuel dev addr data len flags w) as H.
    rewrite E in H. simpl in H. congruence.
  - pose proof (read_regs_keeps_lock fuel dev addr reg data len flags w) as H.
    rewrite E in H. simpl in H. congruence.
  - pose proof (write_regs_lock fuel dev addr reg data len flags w) as H.
    cbv zeta in H. rewrite E in H. unfold held_until_return in H. simpl in H.
    rewrite H, Hfree.
    destruct ((dev <? I2C_NUMOF) && truthy data && (0 <? len) && (len <? 253));
      [destruct (truthy _) |]; reflexivity.
  - pose proof (write_bytes_lock fuel dev addr data len flags w) as H.
    cbv zeta in H. rewrite E in H. unfold held_until_return in H. simpl in H.
    rewrite H, Hfree.
    destruct (in_ram data); [| destruct ((0 <? len) && (len <? 256))];
      reflexivity.
Qed.

End BufferLock.

(** X9.  What each operation does to [buffer_lock], for every state the lock
    is in at the call and every outcome.  The two reads and the direct write
    never change its state; nor do a plain write from RAM, a rejected
    [i2c_write_regs], or a call that fails its first assertion.  An accepted
    [i2c_write_regs] and a plain write from outside RAM with a length in
    range take the lock, and give it back when and only when they return, the
    not-supported return included.  Hence [buffer_lock] is never left taken
    by a call that returns: free at the call, it is free in the world any of
    the four operations returns in. *)
Theorem buffer_lock_free_after_return {T : Target}
    (fuel : nat) (dev addr reg data len flags : Z) (w : world) :
  buffer_locked (world_of (i2c_read_bytes fuel dev addr data len flags w))
    = buffer_locked w /\
  buffer_locked (world_of (i2c_read_regs fuel dev addr reg data len flags w))
    = buffer_locked w /\
  buffer_locked (world_of (direct_i2c_write_bytes fuel dev addr data len flags w))
    = buffer_locked w /\
  (let o := i2c_write_regs fuel dev addr reg data len flags w in
   buffer_locked (world_of o) =
     if (dev <? I2C_NUMOF) && truthy data && (0 <? len) && (len <? 253)
     then if truthy (Z.land flags (Z.lor I2C_NOSTART I2C_ADDR10))
          then buffer_locked w
          else held_until_return o
     else buffer_locked w) /\
  (let o := i2c_write_bytes fuel dev addr data len flags w in
   buffer_locked (world_of o) =
     if in_ram data then buffer_locked w
     else if (0 <? len) && (len <? 256) then held_until_return o
          else buffer_locked w) /\
  (buffer_locked w = false ->
   forall (r : Z) (w' : world),
     i2c_read_bytes fuel dev addr data len flags w = Returned r w' \/
     i2c_read_regs fuel dev addr reg data len flags w = Returned r w' \/
     i2c_write_regs fuel dev addr reg data len flags w = Returned r w' \/
     i2c_write_bytes fuel dev addr data len flags w = Returned r w' ->
     buffer_locked w' = false).
Proof.
  split; [apply read_bytes_keeps_lock |].
  split; [apply read_regs_keeps_lock |].
  split; [apply direct_keeps_lock |].
  split; [apply write_regs_lock |].
  split; [apply write_bytes_lock |].
  intros Hfree r w'.
  now apply (lock_free_on_return fuel dev addr reg data len flags w w' r).
Qed.

(** The staged plain write of [w_flash], rejected for its 10-bit address,
    gives the lock back; a staged write without stop whose poll has not ended
    still holds it; a read entered with the lock held leaves it held. *)
Lemma buffer_lock_free_after_return_witness :
  buffer_locked
    (world_of (i2c_write_bytes (T:=dwm1001) 0 0 0x50 0x1000 2 1 w_flash)) = false /\
  buffer_locked
    (world_of (i2c_write_bytes (T:=dwm1001) 0 0 0x50 0x1000 2 4 w_flash)) = true /\
  buffer_locked
    (world_of (i2c_read_bytes (T:=dwm1001) 0 0 0x50 0x20001000 2 0
                 (World (fun _ => 0) true (answers [1; 0]) 0 []))) = true.
Proof.
  split; [| split].
  - pose proof (buffer_lock_free_after_return (T:=dwm1001)
                  0 0 0x50 0 0x1000 2 1 w_flash) as H.
    destruct H as (_ & _ & _ & _ & _ & H).
    specialize (H ltac:(reflexivity)).
    apply (H (-95)). right. right. right.
    apply returned_world. vm_compute. reflexivity.
  - pose proof (buffer_lock_free_after_return (T:=dwm1001)
                  0 0 0x50 0 0x1000 2 4 w_flash) as H.
    destruct H as (_ & _ & _ & _ & H & _).
    cbv zeta in H. rewrite H. vm_compute. reflexivity.
  - pose proof (buffer_lock_free_after_return (T:=dwm1001)
                  0 0 0x50 0 0x20001000 2 0
                  (World (fun _ => 0) true (answers [1; 0]) 0 [])) as H.
    destruct H as (H & _). rewrite H. reflexivity.
Defined.

(** ** Register writes and plain writes *)

(** X8.  An accepted [i2c_write_regs] is, for the peripheral, the plain write
    of the selector followed by the payload: given the same bytes as one block
    outside RAM, [i2c_write_bytes] leaves the same bytes in [tx_buf], programs
    the same transfer, waits and classifies alike, returns the same value and
    releases [buffer_lock] in the same way.  Only the way [tx_buf] is filled
    differs: selector stores and a copy behind them, against one copy. *)
Theorem write_regs_is_a_staged_write {T : Target}
    (fuel : nat) (dev addr reg data p len flags : Z) (w : world) :
  dev < I2C_NUMOF -> data <> 0 -> 0 < len < 253 ->
  Z.land flags I2C_NOSTART = 0 -> Z.land flags I2C_ADDR10 = 0 ->
  tx_buf <> 0 -> 0 <= reg < 65536 ->
  data + len <= tx_buf \/ tx_buf + 256 <= data ->
  in_ram p = false ->
  let k := reg_addr_len flags in
  load (mem w) p (Z.to_nat (k + len)) =
    selector flags reg ++ load (mem w) data (Z.to_nat len) ->
  let o1 := i2c_write_regs fuel dev addr reg data len flags w in
  let o2 := i2c_write_bytes fuel dev addr p (k + len) flags w in
  retval o1 = retval o2 /\
  load (mem (world_of o1)) tx_buf (Z.to_nat (k + len)) =
    load (mem (world_of o2)) tx_buf (Z.to_nat (k + len)) /\
  exists tl,
    trace (world_of o1) =
      trace w ++ MutexLock buffer_lock
                 :: selector_stores flags reg
                 ++ Memcpy (tx_buf + k) data len :: tl /\
    trace (world_of o2) =
      trace w ++ MutexLock buffer_lock :: Memcpy tx_buf p (k + len) :: tl.
Proof.
  intros Hd Hp Hl Hs Ha Hb Hreg Hdis Hram k Hload o1 o2.
  assert (Hk : 0 < k + len < 256)
    by (subst k; destruct (reg_addr_len_cases flags) as [-> | ->]; lia).
  destruct (write_regs_facts fuel dev addr reg data len flags w
              Hd Hp Hl Hs Ha Hb) as (Ht1 & Hr1 & Hm1 & _).
  destruct (write_bytes_staged_facts fuel dev addr p (k + len) flags w
              Hram Hd Hk Hs Ha Hb) as (Ht2 & Hr2 & Hm2 & _).
  fold k in Ht1, Hm1. fold o1 in Ht1, Hr1, Hm1. fold o2 in Ht2, Hr2, Hm2.
  rewrite Hr1 in Ht1. rewrite Hr2 in Ht2.
  split; [congruence | split].
  - rewrite Hm1, Hm2, load_copy.
    subst k. rewrite load_staged_regs by (assumption || lia).
    symmetry. exact Hload.
  - eexists. split; [exact Ht1 | exact Ht2].
Qed.

(** Selector [0x10] and payload [0xAA, 0xBB] against the block
    [0x10, 0xAA, 0xBB] in flash. *)
Lemma write_regs_is_a_staged_write_witness :
  retval (i2c_write_regs 0 0 0x50 0x10 0x20001000 2 0 w_image) =
  retval (i2c_write_bytes 0 0 0x50 0x1000 3 0 w_image) /\
  load (mem (world_of (i2c_write_regs 0 0 0x50 0x10 0x20001000 2 0 w_image)))
       tx_buf 3 = [0x10; 0xAA; 0xBB].
Proof.
  pose proof (write_regs_is_a_staged_write (T:=dwm1001)
                0 0 0x50 0x10 0x20001000 0x1000 2 0 w_image) as H.
  specialize (H ltac:(vm_compute; reflexivity) ltac:(discriminate) ltac:(lia)
                ltac:(vm_compute; reflexivity) ltac:(vm_compute; reflexivity)
                ltac:(vm_compute; discriminate) ltac:(lia)
                ltac:(right; vm_compute; discriminate)
                ltac:(vm_compute; reflexivity)).
  cbv zeta in H. specialize (H ltac:(vm_compute; reflexivity)).
  destruct H as (H1 & _ & _).
  split; [exact H1 | vm_compute; reflexivity].
Defined.
